(** * OpenRouter MCP server: response normalisation, retry and fan-out

    A shallow embedding of [src/server.ts] and the properties of its
    request-orchestration layer:

    - [extractMessageContent]  (the Response Normalizer),
    - [retryWithBackoff]       (the Resilient Invoker),
    - [chatWithModel]          (the Single-Model Chat Orchestrator),
    - [compareModels]          (the Multi-Model Comparison Orchestrator),
    - [CompareModelsSchema_parse] (the zod schema guarding [compare_models]).

    Conventions of the embedding.

    - A JavaScript string is its sequence of UTF-16 code units
      ([jsstring]); [.length] and [.slice] count code units, as in JS.
    - A JavaScript number that the code only passes through or prints is
      an integer ([Z]); the two places where the code computes with
      fractions (the back-off delay and the sampling temperature) use
      exact rationals ([Q]) in place of IEEE doubles.
    - An [async] function is a tree of its suspension points ([Prog]):
      the same tree is run alone ([exec]) and interleaved with others by
      an event loop ([run_schedule]). *)

From Stdlib Require Import ZArith QArith Qround String Ascii DecimalString Lia.
From stdpp Require Import base list.

Set Warnings "-register-all".
Local Open Scope Z_scope.

(* ===================================================================== *)
(** ** JavaScript strings                                                 *)
(* ===================================================================== *)

Definition code_unit := N.
Definition jsstring := list code_unit.

(** A source literal made of ASCII characters. *)
Definition lit (s : string) : jsstring :=
  map N_of_ascii (list_ascii_of_string s).

(** [String.prototype.slice(start, end)]: negative indices count from the
    end, both are clamped to the string, an empty span gives [""]. *)
Definition slice (s : jsstring) (start finish : Z) : jsstring :=
  let len := Z.of_nat (length s) in
  let from := if start <? 0 then Z.max (len + start) 0 else Z.min start len in
  let to := if finish <? 0 then Z.max (len + finish) 0 else Z.min finish len in
  take (Z.to_nat (Z.max (to - from) 0)) (drop (Z.to_nat from) s).

(** [Array.prototype.join(sep)]: [undefined] elements print as [""]. *)
Fixpoint join (sep : jsstring) (l : list (option jsstring)) : jsstring :=
  match l with
  | [] => []
  | [x] => default [] x
  | x :: rest => default [] x ++ sep ++ join sep rest
  end.

(** Template-literal printing of an integral number: [`${n}`]. *)
Definition number_to_string (n : Z) : jsstring :=
  lit (NilZero.string_of_int (Z.to_int n)).

(** Truthiness of a [string | null | undefined] value: [if (s)]. *)
Definition truthy (s : option jsstring) : bool :=
  match s with
  | Some (_ :: _) => true
  | _ => false
  end.

(** [a || null] on a string. *)
Definition or_null (s : jsstring) : option jsstring :=
  match s with
  | [] => None
  | _ :: _ => Some s
  end.

Definition jsstring_eqb (a b : jsstring) : bool :=
  bool_decide (a = b).

(* ===================================================================== *)
(** ** JSON values                                                        *)
(* ===================================================================== *)

(** What [JSON.parse] produces; an object is the list of its own
    properties (distinct keys, insertion order). *)
Inductive Json : Type :=
| JNull
| JBool (b : bool)
| JNumber (q : Q)
| JString (s : jsstring)
| JArray (items : list Json)
| JObject (fields : list (jsstring * Json)).

(** Property access [obj[key]]; [None] is [undefined]. *)
Fixpoint get_field (key : jsstring) (fields : list (jsstring * Json)) : option Json :=
  match fields with
  | [] => None
  | (k, v) :: rest => if jsstring_eqb k key then Some v else get_field key rest
  end.

(* ===================================================================== *)
(** ** Response Normalizer: [extractMessageContent]                       *)
(* ===================================================================== *)

(** One element of an array-valued [content]: [{ type: string; text?: string }].
    [part_text = None] stands for a [text] that is missing or not a string. *)
Record ContentPart := {
  part_type : jsstring;
  part_text : option jsstring;
}.

(** The run-time shapes of [message.content]. *)
Inductive MessageContent : Type :=
| ContentUndefined
| ContentNull
| ContentText (s : jsstring)
| ContentParts (parts : list ContentPart)
| ContentOther.                      (* a number, a boolean, a plain object *)

(** [interface OpenRouterMessage]. [reasoning_content = None] stands for a
    field that is missing or not a string. *)
Record OpenRouterMessage := {
  role : jsstring;
  content : MessageContent;
  reasoning_content : option jsstring;
  tool_calls : option (list Json);
}.

(** The pair returned by [extractMessageContent]; [None] is [null]. *)
Record Extracted := {
  ex_content : option jsstring;
  ex_reasoning : option jsstring;
}.

(** The filter predicate [part.type === "text" && typeof part.text === "string"]. *)
Definition is_text_part (part : ContentPart) : bool :=
  jsstring_eqb (part_type part) (lit "text") && bool_decide (is_Some (part_text part)).

Definition extractMessageContent (message : OpenRouterMessage) : Extracted :=
  let reasoning :=
    if truthy (reasoning_content message) then reasoning_content message else None in
  let content :=
    match content message with
    | ContentNull | ContentUndefined => None
    | ContentText s => Some s
    | ContentParts parts =>
        let textParts := join [] (map part_text (filter is_text_part parts)) in
        or_null textParts
    | ContentOther => None
    end in
  {| ex_content := content; ex_reasoning := reasoning |}.

(** The normaliser's rule for structured content, in the specification's
    words: keep the payload of every part that is tagged text-kind and has
    a text payload, in order, and put the payloads one after another. *)
Fixpoint text_payloads (parts : list ContentPart) : jsstring :=
  match parts with
  | [] => []
  | p :: rest =>
      match part_text p with
      | Some payload =>
          if jsstring_eqb (part_type p) (lit "text")
          then payload ++ text_payloads rest
          else text_payloads rest
      | None => text_payloads rest
      end
  end.

(* ===================================================================== *)
(** ** Asynchronous code as a tree of suspension points                   *)
(* ===================================================================== *)

(** A thrown value (a promise's rejection reason): [error_message] is
    [error.message], [response_status] is [error.response?.status] when
    that is a number, as on an axios error that carries an HTTP response. *)
Record Thrown := {
  instanceof_Error : bool;
  error_message : jsstring;
  response_status : option Z;
}.

(** [new Error(msg)] *)
Definition new_Error (msg : jsstring) : Thrown :=
  {| instanceof_Error := true; error_message := msg; response_status := None |}.

(** How an awaited promise settles. *)
Inductive Settled (T : Type) : Type :=
| Fulfilled (value : T)
| Rejected (reason : Thrown).
Arguments Fulfilled {T} value.
Arguments Rejected {T} reason.

(** The body of an [async] function whose awaited operations are
    described by [Op] and fulfil with a [T].  [Await] and [SetTimeout]
    suspend the function; [MathRandom] and [ConsoleError] do not. *)
Inductive Prog (Op T R : Type) : Type :=
| Return (r : R)
| Throw (e : Thrown)
| Await (operation : Op) (k : Settled T -> Prog Op T R)
| MathRandom (k : Q -> Prog Op T R)
| ConsoleError (line : jsstring) (k : Prog Op T R)
| SetTimeout (delay : Q) (k : Prog Op T R).
Arguments Return {Op T R} r.
Arguments Throw {Op T R} e.
Arguments Await {Op T R} operation k.
Arguments MathRandom {Op T R} k.
Arguments ConsoleError {Op T R} line k.
Arguments SetTimeout {Op T R} delay k.

(** Sequencing: [const x = await p; k(x)]. *)
Fixpoint bind {Op T A B} (p : Prog Op T A) (f : A -> Prog Op T B) : Prog Op T B :=
  match p with
  | Return a => f a
  | Throw e => Throw e
  | Await op k => Await op (fun s => bind (k s) f)
  | MathRandom k => MathRandom (fun r => bind (k r) f)
  | ConsoleError line k => ConsoleError line (bind k f)
  | SetTimeout d k => SetTimeout d (bind k f)
  end.

(** [try { p } catch (error) { handler(error) }] *)
Fixpoint try_catch {Op T A} (p : Prog Op T A) (handler : Thrown -> Prog Op T A)
  : Prog Op T A :=
  match p with
  | Return a => Return a
  | Throw e => handler e
  | Await op k => Await op (fun s => try_catch (k s) handler)
  | MathRandom k => MathRandom (fun r => try_catch (k r) handler)
  | ConsoleError line k => ConsoleError line (try_catch k handler)
  | SetTimeout d k => SetTimeout d (try_catch k handler)
  end.

(* ===================================================================== *)
(** ** Resilient Invoker: [retryWithBackoff]                              *)
(* ===================================================================== *)

(** [error.response?.status === 429 || error.response?.status === 402] *)
Definition isRetryableError (error : Thrown) : bool :=
  bool_decide (response_status error = Some 429)
  || bool_decide (response_status error = Some 402).

(** [Math.round]: the nearest integer, a tie going up. *)
Definition Math_round (x : Q) : Z := Qfloor (x + (1 # 2)).

(** The message written to [console.error] before a retry. *)
Definition retry_notice (error : Thrown) (attempt maxRetries : Z) (delay : Q) : jsstring :=
  let errorType :=
    if bool_decide (response_status error = Some 429)
    then lit "Rate limited"
    else lit "Payment required (free model limit)" in
  errorType ++ lit " (attempt " ++ number_to_string (attempt + 1) ++ lit "/"
    ++ number_to_string (maxRetries + 1) ++ lit "), retrying in "
    ++ number_to_string (Math_round delay) ++ lit "ms...".

Section Retry.
Context {Op T : Type}.
Variable operation : Op.
Variable maxRetries : Z.
Variable baseDelay : Q.

(** The loop [for (let attempt = 0; attempt <= maxRetries; attempt++)],
    entered at [attempt] with [iterations] passes left: no pass left is
    the guard [attempt <= maxRetries] failing, which falls through to
    the [throw] after the loop (see [loop_guard]). *)
Fixpoint retry_loop (iterations : nat) (attempt : Z) : Prog Op T T :=
  match iterations with
  | O => Throw (new_Error (lit "Max retries exceeded"))
  | S iterations' =>
      Await operation (fun outcome =>
        match outcome with
        | Fulfilled value => Return value
        | Rejected error =>
            if isRetryableError error && (attempt <? maxRetries) then
              MathRandom (fun random =>
                let delay := (baseDelay * 2 ^ attempt + random * 1000)%Q in
                ConsoleError (retry_notice error attempt maxRetries delay)
                  (SetTimeout delay (retry_loop iterations' (attempt + 1))))
            else Throw error
        end)
  end.

(** Passes of the loop that start at [attempt]. *)
Definition passes_from (attempt : Z) : nat := Z.to_nat (maxRetries + 1 - attempt).

Definition retryWithBackoff : Prog Op T T := retry_loop (passes_from 0) 0.
End Retry.

(** The defaults of the [maxRetries] and [baseDelay] parameters. *)
Definition default_maxRetries : Z := 3.
Definition default_baseDelay : Q := 1000.

(* ===================================================================== *)
(** ** Running asynchronous code                                          *)
(* ===================================================================== *)

(** What an observer sees of a run, in the order it happens: an awaited
    operation settling, a line on [console.error], a timer firing. *)
Inductive Event (Op : Type) : Type :=
| Called (operation : Op)
| Logged (line : jsstring)
| Slept (delay : Q).
Arguments Called {Op} operation.
Arguments Logged {Op} line.
Arguments Slept {Op} delay.

(** The world as one asynchronous function meets it: how its [n]-th
    awaited operation settles and what its [n]-th [Math.random()] is. *)
Record Oracle (Op T : Type) := {
  outcomes : nat -> Op -> Settled T;
  randoms : nat -> Q;
}.
Arguments outcomes {Op T} o n operation.
Arguments randoms {Op T} o n.

(** An asynchronous function in flight: the code still to run, how many
    operations and random numbers it has consumed, and what it did. *)
Record Task (Op T R : Type) := {
  code : Prog Op T R;
  calls : nat;
  draws : nat;
  trace : list (Event Op);
}.
Arguments code {Op T R} t.
Arguments calls {Op T R} t.
Arguments draws {Op T R} t.
Arguments trace {Op T R} t.

Section Run.
Context {Op T R : Type}.
Variable world : Oracle Op T.

(** Runs the code up to its next suspension point (or its end). *)
Fixpoint sync (p : Prog Op T R) (ncalls ndraws : nat) (tr : list (Event Op))
  : Task Op T R :=
  match p with
  | MathRandom k => sync (k (randoms world ndraws)) ncalls (S ndraws) tr
  | ConsoleError line k => sync k ncalls ndraws (tr ++ [Logged line])
  | _ => {| code := p; calls := ncalls; draws := ndraws; trace := tr |}
  end.

(** One turn of the event loop given to this task: the promise it is
    suspended on settles and the task runs to its next suspension. *)
Definition step (t : Task Op T R) : Task Op T R :=
  match code t with
  | Await op k =>
      sync (k (outcomes world (calls t) op)) (S (calls t)) (draws t)
           (trace t ++ [Called op])
  | SetTimeout delay k =>
      sync k (calls t) (draws t) (trace t ++ [Slept delay])
  | _ => t
  end.

(** Runs the code to its end, with nothing else in between. *)
Fixpoint finish (p : Prog Op T R) (ncalls ndraws : nat) (tr : list (Event Op))
  : Task Op T R :=
  match p with
  | Return _ | Throw _ =>
      {| code := p; calls := ncalls; draws := ndraws; trace := tr |}
  | Await op k =>
      finish (k (outcomes world ncalls op)) (S ncalls) ndraws (tr ++ [Called op])
  | MathRandom k => finish (k (randoms world ndraws)) ncalls (S ndraws) tr
  | ConsoleError line k => finish k ncalls ndraws (tr ++ [Logged line])
  | SetTimeout delay k => finish k ncalls ndraws (tr ++ [Slept delay])
  end.

(** Runs what is left of a task to its end. *)
Definition resume (t : Task Op T R) : Task Op T R :=
  finish (code t) (calls t) (draws t) (trace t).

Definition spawn (p : Prog Op T R) : Task Op T R := sync p 0%nat 0%nat [].
Definition exec (p : Prog Op T R) : Task Op T R := finish p 0%nat 0%nat [].
End Run.

(** How a task's promise has settled, if it has. *)
Definition settlement {Op T R} (t : Task Op T R) : option (Settled R) :=
  match code t with
  | Return r => Some (Fulfilled r)
  | Throw e => Some (Rejected e)
  | _ => None
  end.

Definition fulfilment {Op T R} (t : Task Op T R) : option R :=
  match code t with
  | Return r => Some r
  | _ => None
  end.

Definition rejection {Op T R} (t : Task Op T R) : option Thrown :=
  match code t with
  | Throw e => Some e
  | _ => None
  end.

(** Number of awaited operations in a trace: the attempts. *)
Definition is_call {Op} (ev : Event Op) : bool :=
  match ev with Called _ => true | _ => false end.

Definition attempts {Op} (tr : list (Event Op)) : nat :=
  length (filter is_call tr).

(** The delays of the timers in a trace. *)
Definition delays {Op} (tr : list (Event Op)) : list Q :=
  omap (fun ev => match ev with Slept d => Some d | _ => None end) tr.

(* ===================================================================== *)
(** ** The event loop and [Promise.all]                                   *)
(* ===================================================================== *)

(** Tasks started together, one slot each; [first_rejection] is the
    reason of the task that rejected first, which is what [Promise.all]
    rejects with. *)
Record Loop (Op T R : Type) := {
  tasks : list (Task Op T R);
  first_rejection : option Thrown;
}.
Arguments tasks {Op T R} l.
Arguments first_rejection {Op T R} l.

Section EventLoop.
Context {Op T R : Type}.
(** Each slot meets its own world. *)
Variable worlds : nat -> Oracle Op T.

(** [array.map(async ...)]: every function starts, in index order, and
    runs to its first suspension point. *)
Definition spawn_all (progs : list (Prog Op T R)) : Loop Op T R :=
  let started := imap (fun i p => spawn (worlds i) p) progs in
  {| tasks := started;
     first_rejection := head (omap rejection started) |}.

(** The event loop gives its next turn to slot [i]. *)
Definition turn (l : Loop Op T R) (i : nat) : Loop Op T R :=
  match tasks l !! i with
  | None => l
  | Some t =>
      let t' := step (worlds i) t in
      {| tasks := <[i := t']> (tasks l);
         first_rejection :=
           match first_rejection l with
           | Some e => Some e
           | None => rejection t'
           end |}
  end.

(** A schedule names the slot served at each turn, in time order. *)
Definition run_schedule (schedule : list nat) (l : Loop Op T R) : Loop Op T R :=
  foldl turn l schedule.

(** [await Promise.all(promises)]: [None] while some promise is pending
    and none has rejected; fulfilled with the values in slot order. *)
Definition promise_all (l : Loop Op T R) : option (Settled (list R)) :=
  match first_rejection l with
  | Some e => Some (Rejected e)
  | None => Fulfilled <$> mapM fulfilment (tasks l)
  end.
End EventLoop.

(* ===================================================================== *)
(** ** The remote chat-completion call                                    *)
(* ===================================================================== *)

Definition nl : jsstring := [10%N].

(** [OPENROUTER_CONFIG], read once from the environment at start-up. *)
Record Config := {
  baseURL : jsstring;
  headers : list (jsstring * jsstring);
}.

(** An element of the [messages] array: [{role, content}]. *)
Record ChatTurn := {
  turn_role : jsstring;
  turn_content : jsstring;
}.

(** The JSON body of [POST /chat/completions]; [compareModels] sends no
    [temperature] key. *)
Module ChatBody.
Record t := {
  model : jsstring;
  messages : list ChatTurn;
  max_tokens : Q;
  temperature : option Q;
}.
End ChatBody.

(** [axios.post(url, body, { headers })], the awaited operation. *)
Record HttpRequest := {
  url : jsstring;
  body : ChatBody.t;
  request_headers : list (jsstring * jsstring);
}.

(** [response.data.usage] *)
Record Usage := {
  prompt_tokens : Z;
  completion_tokens : Z;
  total_tokens : Z;
}.

(** A completion response as the code expects it, reduced to what the code
    reads: [response.data.choices[0].message] and [response.data.usage].
    A response that lacks one of the two makes the code throw a
    [TypeError] when it reads it; such a response is not a value of this
    type, and what is proved of a fulfilled call is proved of a call that
    fulfils with a response of this shape. *)
Record AxiosResponse := {
  choices_0_message : OpenRouterMessage;
  usage : Usage;
}.

Definition chat_completions (cfg : Config) (b : ChatBody.t) : HttpRequest :=
  {| url := baseURL cfg ++ lit "/chat/completions";
     body := b;
     request_headers := headers cfg |}.

(** A tool's answer: [{ content: [{ type: "text", text }] }]. *)
Record TextItem := {
  item_type : jsstring;
  text : jsstring;
}.

Record ToolResult := {
  result_content : list TextItem;
}.

Definition text_result (t : jsstring) : ToolResult :=
  {| result_content := [ {| item_type := lit "text"; text := t |} ] |}.

Abbreviation Async R := (Prog HttpRequest AxiosResponse R).

(* ===================================================================== *)
(** ** Single-Model Chat Orchestrator: [chatWithModel]                    *)
(* ===================================================================== *)

(** [z.infer<typeof ChatRequestSchema>], after the schema's defaults. *)
Module ChatRequest.
Record t := {
  model : jsstring;
  message : jsstring;
  max_tokens : Q;
  temperature : Q;
  system_prompt : option jsstring;
}.
End ChatRequest.

(** The conversation: [messages = []], a pushed system turn when
    [system_prompt] is truthy, then the pushed user turn. *)
Definition chat_messages (system_prompt : option jsstring) (message : jsstring)
  : list ChatTurn :=
  let messages := [] in
  let messages :=
    match system_prompt with
    | Some prompt =>
        if truthy system_prompt
        then messages ++ [ {| turn_role := lit "system"; turn_content := prompt |} ]
        else messages
    | None => messages
    end in
  messages ++ [ {| turn_role := lit "user"; turn_content := message |} ].

Definition chat_report (model : jsstring) (reply : Extracted) (u : Usage) : jsstring :=
  let responseText := lit "**Model:** " ++ model ++ nl in
  let responseText :=
    match ex_reasoning reply with
    | Some reasoning =>
        if truthy (ex_reasoning reply)
        then responseText ++ lit "**Reasoning:**" ++ nl ++ reasoning ++ nl ++ nl
        else responseText
    | None => responseText
    end in
  let responseText :=
    responseText ++ lit "**Response:** "
      ++ default (lit "(no content returned)") (ex_content reply) ++ nl ++ nl in
  responseText ++ lit "**Usage:**" ++ nl
    ++ lit "- Prompt tokens: " ++ number_to_string (prompt_tokens u) ++ nl
    ++ lit "- Completion tokens: " ++ number_to_string (completion_tokens u) ++ nl
    ++ lit "- Total tokens: " ++ number_to_string (total_tokens u).

Definition chatWithModel (cfg : Config) (params : ChatRequest.t) : Async ToolResult :=
  let messages :=
    chat_messages (ChatRequest.system_prompt params) (ChatRequest.message params) in
  let operation :=
    chat_completions cfg
      {| ChatBody.model := ChatRequest.model params;
         ChatBody.messages := messages;
         ChatBody.max_tokens := ChatRequest.max_tokens params;
         ChatBody.temperature := Some (ChatRequest.temperature params) |} in
  bind (retryWithBackoff operation default_maxRetries default_baseDelay)
    (fun response =>
       let assistantMessage := choices_0_message response in
       let reply := extractMessageContent assistantMessage in
       Return (text_result
                 (chat_report (ChatRequest.model params) reply (usage response)))).

(** The request that a suspended function is waiting on. *)
Definition awaited {Op T R} (p : Prog Op T R) : option Op :=
  match p with
  | Await op _ => Some op
  | _ => None
  end.

(* ===================================================================== *)
(** ** Multi-Model Comparison Orchestrator: [compareModels]               *)
(* ===================================================================== *)

(** [z.infer<typeof CompareModelsSchema>], after the schema's defaults. *)
Module CompareModels.
Record t := {
  models : list jsstring;
  message : jsstring;
  max_tokens : Q;
}.
End CompareModels.

(** The object each per-model function returns: with [success: true]
    the reply and usage, with [success: false] the error text. *)
Inductive ComparisonResult : Type :=
| Succeeded (model : jsstring) (response reasoning : option jsstring) (u : Usage)
| Failed (model : jsstring) (error : jsstring).

Definition result_model (r : ComparisonResult) : jsstring :=
  match r with
  | Succeeded model _ _ _ => model
  | Failed model _ => model
  end.

Definition success (r : ComparisonResult) : bool :=
  match r with
  | Succeeded _ _ _ _ => true
  | Failed _ _ => false
  end.

(** The function mapped over [models]: the whole body is inside [try],
    so whatever is thrown becomes a [success: false] result. *)
Definition compare_one (cfg : Config) (message : jsstring) (max_tokens : Q)
    (model : jsstring) : Async ComparisonResult :=
  try_catch
    (let messages := [ {| turn_role := lit "user"; turn_content := message |} ] in
     let operation :=
       chat_completions cfg
         {| ChatBody.model := model;
            ChatBody.messages := messages;
            ChatBody.max_tokens := max_tokens;
            ChatBody.temperature := None |} in
     bind (retryWithBackoff operation default_maxRetries default_baseDelay)
       (fun response =>
          let msg := choices_0_message response in
          let reply := extractMessageContent msg in
          Return (Succeeded model (ex_content reply) (ex_reasoning reply)
                            (usage response))))
    (fun error =>
       Return (Failed model
                 (if instanceof_Error error then error_message error
                  else lit "Unknown error"))).

(** The reasoning as it is interpolated into a block:
    [reasoning.slice(0, 200)] and ["..."] when [reasoning.length > 200]. *)
Definition reasoning_excerpt (reasoning : jsstring) : jsstring :=
  slice reasoning 0 200
    ++ (if Z.of_nat (length reasoning) >? 200 then lit "..." else []).

(** U+274C, the cross mark of a failed block. *)
Definition cross_mark : jsstring := [10060%N].

(** The block rendered for one result. *)
Definition format_result (result : ComparisonResult) : jsstring :=
  match result with
  | Succeeded model response reasoning u =>
      let text := lit "**" ++ model ++ lit ":**" ++ nl in
      let text :=
        match reasoning with
        | Some r =>
            if truthy reasoning
            then text ++ lit "*Reasoning:* " ++ reasoning_excerpt r ++ nl ++ nl
            else text
        | None => text
        end in
      text ++ default (lit "(no content)") response ++ nl
        ++ lit "*Tokens: " ++ number_to_string (total_tokens u) ++ lit "*"
  | Failed model error =>
      lit "**" ++ model ++ lit ":** " ++ cross_mark ++ lit " Error - " ++ error
  end.

Definition separator : jsstring := nl ++ nl ++ lit "---" ++ nl ++ nl.

Definition comparison_report (models : list jsstring) (results : list ComparisonResult)
  : jsstring :=
  let formattedResults := join separator (map (Some ∘ format_result) results) in
  lit "Comparison of " ++ number_to_string (Z.of_nat (length models))
    ++ lit " models:" ++ nl ++ nl ++ formattedResults.

(** The promises of [models.map(async (model) => ...)]. *)
Definition compare_promises (cfg : Config) (params : CompareModels.t)
  : list (Async ComparisonResult) :=
  map (compare_one cfg (CompareModels.message params) (CompareModels.max_tokens params))
      (CompareModels.models params).

(** [const results = await Promise.all(promises)], the calls settling in
    the order of [schedule]. *)
Definition compare_results (cfg : Config)
    (worlds : nat -> Oracle HttpRequest AxiosResponse) (schedule : list nat)
    (params : CompareModels.t) : option (Settled (list ComparisonResult)) :=
  promise_all
    (run_schedule worlds schedule (spawn_all worlds (compare_promises cfg params))).

(** [compareModels]: [None] while [Promise.all] is still pending at the
    end of [schedule]. *)
Definition compareModels (cfg : Config)
    (worlds : nat -> Oracle HttpRequest AxiosResponse) (schedule : list nat)
    (params : CompareModels.t) : option (Settled ToolResult) :=
  match compare_results cfg worlds schedule params with
  | None => None
  | Some (Rejected e) => Some (Rejected e)
  | Some (Fulfilled results) =>
      Some (Fulfilled
              (text_result (comparison_report (CompareModels.models params) results)))
  end.

(** Every event of every slot, for counting remote calls. *)
Definition compare_traces (cfg : Config)
    (worlds : nat -> Oracle HttpRequest AxiosResponse) (schedule : list nat)
    (params : CompareModels.t) : list (Event HttpRequest) :=
  concat (map trace
    (tasks (run_schedule worlds schedule (spawn_all worlds (compare_promises cfg params))))).

(* ===================================================================== *)
(** ** [CompareModelsSchema]                                              *)
(* ===================================================================== *)

(** [z.string()] *)
Definition z_string (v : Json) : option jsstring :=
  match v with
  | JString s => Some s
  | _ => None
  end.

(** [z.array(z.string())]: any array of strings, the empty one included
    (there is no [.min] or [.nonempty] on it). *)
Definition z_array_of_string (v : Json) : option (list jsstring) :=
  match v with
  | JArray items => mapM z_string items
  | _ => None
  end.

(** [z.number().optional().default(d)] on a property that may be absent. *)
Definition z_number_default (d : Q) (v : option Json) : option Q :=
  match v with
  | None => Some d
  | Some (JNumber q) => Some q
  | Some _ => None
  end.

(** [CompareModelsSchema.parse(args)]; [None] is a thrown [ZodError]. *)
Definition CompareModelsSchema_parse (args : option Json) : option CompareModels.t :=
  match args with
  | Some (JObject fields) =>
      models ← get_field (lit "models") fields ≫= z_array_of_string;
      message ← get_field (lit "message") fields ≫= z_string;
      max_tokens ← z_number_default 500 (get_field (lit "max_tokens") fields);
      Some {| CompareModels.models := models;
              CompareModels.message := message;
              CompareModels.max_tokens := max_tokens |}
  | _ => None
  end.

(* ===================================================================== *)
(** ** Vocabulary of the statements                                       *)
(* ===================================================================== *)

(** A text-kind part and a part of another kind. *)
Definition text_part (s : string) : ContentPart :=
  {| part_type := lit "text"; part_text := Some (lit s) |}.

Definition image_part : ContentPart :=
  {| part_type := lit "image_url"; part_text := None |}.

Section RetryVocabulary.
Context {Op T : Type}.
Variable world : Oracle Op T.
Variable operation : Op.
Variable maxRetries : Z.
Variable baseDelay : Q.

(** The delay after the failed attempt number [n] (counted from 0),
    [d] random numbers having been drawn before. *)
Definition backoff_delay (n d : nat) : Q :=
  (baseDelay * 2 ^ Z.of_nat n + randoms world d * 1000)%Q.

(** What a pass of the loop that ends in [continue] is seen to do. *)
Definition retried_pass (n d : nat) (error : Thrown) : list (Event Op) :=
  [ Called operation;
    Logged (retry_notice error (Z.of_nat n) maxRetries (backoff_delay n d));
    Slept (backoff_delay n d) ].
End RetryVocabulary.

(** An error that carries an HTTP response with the given status. *)
Definition error_with_status (status : Z) : Thrown :=
  {| instanceof_Error := true;
     error_message := lit "Request failed";
     response_status := Some status |}.

(** Fake operations: one that always rejects with a status, one that
    rejects twice with 429 and then fulfils with 7. *)
Definition always_rejects (status : Z) : Oracle unit nat :=
  {| outcomes := fun _ _ => Rejected (error_with_status status);
     randoms := fun _ => 1 # 2 |}.

Definition fails_twice : Oracle unit nat :=
  {| outcomes := fun n _ =>
       if (n <? 2)%nat then Rejected (error_with_status 429) else Fulfilled 7%nat;
     randoms := fun _ => 1 # 2 |}.

Definition system_turn (prompt : jsstring) : ChatTurn :=
  {| turn_role := lit "system"; turn_content := prompt |}.

Definition user_turn (message : jsstring) : ChatTurn :=
  {| turn_role := lit "user"; turn_content := message |}.

(** The conversation in the request that [chatWithModel] first awaits. *)
Definition posted_messages (cfg : Config) (params : ChatRequest.t)
  : option (list ChatTurn) :=
  (fun request => ChatBody.messages (body request)) <$> awaited (chatWithModel cfg params).

(** A successful block around a given rendering of the reasoning. *)
Definition block_with_reasoning (model rendered : jsstring)
    (response : option jsstring) (u : Usage) : jsstring :=
  lit "**" ++ model ++ lit ":**" ++ nl
    ++ lit "*Reasoning:* " ++ rendered ++ nl ++ nl
    ++ default (lit "(no content)") response ++ nl
    ++ lit "*Tokens: " ++ number_to_string (total_tokens u) ++ lit "*".

(** A function that awaits [p] inside [try] and returns from both the
    [try] and the [catch], as the function mapped by [compareModels]. *)
Definition settle_with {Op T A B} (on_value : A -> B) (on_error : Thrown -> B)
    (p : Prog Op T A) : Prog Op T B :=
  try_catch (bind p (fun value => Return (on_value value)))
            (fun error => Return (on_error error)).

(** The remote call that [compareModels] makes for one model. *)
Definition compare_call (cfg : Config) (message : jsstring) (max_tokens : Q)
    (model : jsstring) : Async AxiosResponse :=
  retryWithBackoff
    (chat_completions cfg
       {| ChatBody.model := model;
          ChatBody.messages := [user_turn message];
          ChatBody.max_tokens := max_tokens;
          ChatBody.temperature := None |})
    default_maxRetries default_baseDelay.

(** The text kept of a caught error. *)
Definition error_text (error : Thrown) : jsstring :=
  if instanceof_Error error then error_message error else lit "Unknown error".

(** The entry for a model whose call succeeded: marked succeeded, with
    the normalised reply and the usage. *)
Definition succeeded_entry (model : jsstring) (response : AxiosResponse)
  : ComparisonResult :=
  let reply := extractMessageContent (choices_0_message response) in
  Succeeded model (ex_content reply) (ex_reasoning reply) (usage response).

(** The entry for a model, from how its call settled. *)
Definition comparison_entry (model : jsstring) (outcome : Settled AxiosResponse)
  : ComparisonResult :=
  match outcome with
  | Fulfilled response => succeeded_entry model response
  | Rejected error => Failed model (error_text error)
  end.

(** How many turns a schedule gives to slot [i]. *)
Definition turns_of (i : nat) (schedule : list nat) : nat :=
  count_occ Nat.eq_dec schedule i.

(** A completion whose message is the plain text [s], costing 2 tokens. *)
Definition plain_reply (s : string) : AxiosResponse :=
  {| choices_0_message :=
       {| role := lit "assistant"; content := ContentText (lit s);
          reasoning_content := None; tool_calls := None |};
     usage := {| prompt_tokens := 1; completion_tokens := 1; total_tokens := 2 |} |}.

(** A remote that answers the slots 0 and 2 and fails slot 1 with a 500. *)
Definition middle_fails (slot : nat) : Oracle HttpRequest AxiosResponse :=
  {| outcomes := fun _ _ =>
       match slot with
       | 0%nat => Fulfilled (plain_reply "alpha")
       | 1%nat => Rejected (error_with_status 500)
       | _ => Fulfilled (plain_reply "gamma")
       end;
     randoms := fun _ => 1 # 2 |}.

(** Eight rounds in which the last slot is always served first. *)
Definition last_first : list nat :=
  concat (replicate 8 [2; 1; 0]%nat).

Definition demo_config : Config :=
  {| baseURL := lit "https://openrouter.ai/api/v1"; headers := [] |}.

(** A message whose reasoning is [n] times the letter a. *)
Definition reasoning_of_length (n : nat) : OpenRouterMessage :=
  {| role := lit "assistant"; content := ContentText (lit "42");
     reasoning_content := Some (replicate n 97%N); tool_calls := None |}.

(* ===================================================================== *)
(** ** Vocabulary of the further properties                               *)
(* ===================================================================== *)

(** The operations awaited in a trace, in order. *)
Definition calls_of {Op} (tr : list (Event Op)) : list Op :=
  omap (fun ev => match ev with Called op => Some op | _ => None end) tr.

(** The lines written to [console.error] in a trace. *)
Definition logs_of {Op} (tr : list (Event Op)) : list jsstring :=
  omap (fun ev => match ev with Logged line => Some line | _ => None end) tr.

(** [needle] occurs in [hay]. *)
Definition occurs_in (needle hay : jsstring) : Prop :=
  exists before after, hay = before ++ needle ++ after.

Section RetryRuns.
Context {Op T : Type}.
Variable world : Oracle Op T.
Variable operation : Op.
Variable maxRetries : Z.
Variable baseDelay : Q.

(** What [count] passes that all end in [continue] are seen to do, the
    first being the attempt number [from]; before attempt [i] the loop
    has drawn [i] random numbers. *)
Definition retried_passes (from count : nat) : list (Event Op) :=
  flat_map
    (fun i =>
       match outcomes world i operation with
       | Rejected error => retried_pass world operation maxRetries baseDelay i i error
       | Fulfilled _ => []
       end)
    (seq from count).
End RetryRuns.

(** An operation that fulfils at once with 7. *)
Definition fulfils_at_once : Oracle unit nat :=
  {| outcomes := fun _ _ => Fulfilled 7%nat; randoms := fun _ => 1 # 2 |}.

(** The request that [chatWithModel] posts, and its retried call. *)
Definition chat_request (cfg : Config) (params : ChatRequest.t) : HttpRequest :=
  chat_completions cfg
    {| ChatBody.model := ChatRequest.model params;
       ChatBody.messages :=
         chat_messages (ChatRequest.system_prompt params) (ChatRequest.message params);
       ChatBody.max_tokens := ChatRequest.max_tokens params;
       ChatBody.temperature := Some (ChatRequest.temperature params) |}.

Definition chat_call (cfg : Config) (params : ChatRequest.t) : Async AxiosResponse :=
  retryWithBackoff (chat_request cfg params) default_maxRetries default_baseDelay.

(** The answer of [chatWithModel] to a completion. *)
Definition chat_answer (params : ChatRequest.t) (response : AxiosResponse) : ToolResult :=
  text_result
    (chat_report (ChatRequest.model params)
       (extractMessageContent (choices_0_message response)) (usage response)).

(** A message with the given content parts and nothing else. *)
Definition message_of_parts (parts : list ContentPart) : OpenRouterMessage :=
  {| role := lit "assistant"; content := ContentParts parts;
     reasoning_content := None; tool_calls := None |}.

Definition demo_chat : ChatRequest.t :=
  {| ChatRequest.model := lit "demo/echo"; ChatRequest.message := lit "hi";
     ChatRequest.max_tokens := 1000; ChatRequest.temperature := 7 # 10;
     ChatRequest.system_prompt := None |}.

(** A remote that answers every call with the plain text "hello". *)
Definition echo_remote : Oracle HttpRequest AxiosResponse :=
  {| outcomes := fun _ _ => Fulfilled (plain_reply "hello");
     randoms := fun _ => 1 # 2 |}.

(** A remote that fails every call with the given status. *)
Definition failing_remote (status : Z) : Oracle HttpRequest AxiosResponse :=
  {| outcomes := fun _ _ => Rejected (error_with_status status);
     randoms := fun _ => 1 # 2 |}.

(* ===================================================================== *)
(** ** [ChatRequestSchema]                                                *)
(* ===================================================================== *)

(** [z.string().optional()] on a property that may be absent. *)
Definition z_string_optional (v : option Json) : option (option jsstring) :=
  match v with
  | None => Some None
  | Some (JString s) => Some (Some s)
  | Some _ => None
  end.

(** [ChatRequestSchema.parse(args)]; [None] is a thrown [ZodError]. *)
Definition ChatRequestSchema_parse (args : option Json) : option ChatRequest.t :=
  match args with
  | Some (JObject fields) =>
      model ← get_field (lit "model") fields ≫= z_string;
      message ← get_field (lit "message") fields ≫= z_string;
      max_tokens ← z_number_default 1000 (get_field (lit "max_tokens") fields);
      temperature ← z_number_default (7 # 10) (get_field (lit "temperature") fields);
      system_prompt ← z_string_optional (get_field (lit "system_prompt") fields);
      Some {| ChatRequest.model := model;
              ChatRequest.message := message;
              ChatRequest.max_tokens := max_tokens;
              ChatRequest.temperature := temperature;
              ChatRequest.system_prompt := system_prompt |}
  | _ => None
  end.

(** The arguments object that spells out every field of a request. *)
Definition compare_args (params : CompareModels.t) : Json :=
  JObject [ (lit "models", JArray (map JString (CompareModels.models params)));
            (lit "message", JString (CompareModels.message params));
            (lit "max_tokens", JNumber (CompareModels.max_tokens params)) ].

Definition chat_args (params : ChatRequest.t) : Json :=
  JObject ([ (lit "model", JString (ChatRequest.model params));
             (lit "message", JString (ChatRequest.message params));
             (lit "max_tokens", JNumber (ChatRequest.max_tokens params));
             (lit "temperature", JNumber (ChatRequest.temperature params)) ]
           ++ match ChatRequest.system_prompt params with
              | Some prompt => [ (lit "system_prompt", JString prompt) ]
              | None => []
              end).

(** The request that [compareModels] posts for one model. *)
Definition compare_request (cfg : Config) (message : jsstring) (max_tokens : Q)
    (model : jsstring) : HttpRequest :=
  chat_completions cfg
    {| ChatBody.model := model;
       ChatBody.messages := [user_turn message];
       ChatBody.max_tokens := max_tokens;
       ChatBody.temperature := None |}.

Definition demo_comparison : CompareModels.t :=
  {| CompareModels.models := [lit "a/one"; lit "b/two"; lit "c/three"];
     CompareModels.message := lit "hi";
     CompareModels.max_tokens := 500 |}.

(** Eight rounds in request order. *)
Definition first_first : list nat :=
  concat (replicate 8 [0; 1; 2]%nat).

(* ===================================================================== *)
(** ** The catalogue tools: [listModels] and [getModelInfo]               *)
(* ===================================================================== *)

(** [axios.get(url, { headers })], awaited directly, with no retry. *)
Record GetRequest := {
  get_url : jsstring;
  get_headers : list (jsstring * jsstring);
}.

Definition models_request (cfg : Config) : GetRequest :=
  {| get_url := baseURL cfg ++ lit "/models"; get_headers := headers cfg |}.

(** A model of the catalogue, the object of its properties. *)
Definition ModelObject := list (jsstring * Json).

(** The part of a catalogue response that the code reads:
    [response.data.data], an array of model objects. *)
Record CatalogResponse := {
  data_data : list ModelObject;
}.

(** The object built for each model by [listModels]; a property whose
    source is missing is [undefined] ([None]). *)
Record ModelSummary := {
  summary_id : option Json;
  summary_name : option Json;
  summary_description : option Json;
  summary_context_length : option Json;
  summary_pricing : option Json;
}.

Definition summarize (model : ModelObject) : ModelSummary :=
  {| summary_id := get_field (lit "id") model;
     summary_name := get_field (lit "name") model;
     summary_description := get_field (lit "description") model;
     summary_context_length := get_field (lit "context_length") model;
     summary_pricing := get_field (lit "pricing") model |}.

(** [m.id === model], for a string [model]. *)
Definition id_is (model : jsstring) (m : ModelObject) : bool :=
  match get_field (lit "id") m with
  | Some (JString s) => jsstring_eqb s model
  | _ => false
  end.

Section CatalogTools.
(** [JSON.stringify(value, null, 2)], on a model and on the summaries. *)
Variable stringify_model : ModelObject -> jsstring.
Variable stringify_summaries : list ModelSummary -> jsstring.

Definition listModels (cfg : Config) : Prog GetRequest CatalogResponse ToolResult :=
  Await (models_request cfg) (fun settled =>
    match settled with
    | Rejected error => Throw error
    | Fulfilled response =>
        let models := map summarize (data_data response) in
        Return (text_result
                  (lit "Found " ++ number_to_string (Z.of_nat (length models))
                     ++ lit " available models:" ++ nl ++ nl
                     ++ stringify_summaries models))
    end).

Definition getModelInfo (cfg : Config) (model : jsstring)
  : Prog GetRequest CatalogResponse ToolResult :=
  Await (models_request cfg) (fun settled =>
    match settled with
    | Rejected error => Throw error
    | Fulfilled response =>
        match List.find (id_is model) (data_data response) with
        | Some found => Return (text_result (stringify_model found))
        | None => Throw (new_Error (lit "Model " ++ model ++ lit " not found"))
        end
    end).
End CatalogTools.

(** A catalogue entry with the given id and context length. *)
Definition catalog_entry (id : string) (context_length : Z) : ModelObject :=
  [ (lit "id", JString (lit id));
    (lit "context_length", JNumber (inject_Z context_length)) ].

(** A remote whose catalogue lists two models, the second one twice. *)
Definition catalog_remote : Oracle GetRequest CatalogResponse :=
  {| outcomes := fun _ _ =>
       Fulfilled {| data_data := [ catalog_entry "a/one" 4096;
                                   catalog_entry "b/two" 8192;
                                   catalog_entry "b/two" 16384 ] |};
     randoms := fun _ => 1 # 2 |}.

(** A remote whose catalogue call is rate limited. *)
Definition limited_catalog : Oracle GetRequest CatalogResponse :=
  {| outcomes := fun _ _ => Rejected (error_with_status 429);
     randoms := fun _ => 1 # 2 |}.

(** A stand-in for [JSON.stringify]: the id of the model. *)
Definition show_id (m : ModelObject) : jsstring :=
  match get_field (lit "id") m with
  | Some (JString s) => s
  | _ => []
  end.

(** The reasoning as the specification renders it: the first 200
    characters and an ellipsis when it is longer than 200, itself
    otherwise. *)
Definition rendered_reasoning (reasoning : jsstring) : jsstring :=
  if (200 <? length reasoning)%nat then take 200 reasoning ++ lit "..." else reasoning.

(** The first line of a comparison report and the blank line after it. *)
Definition report_header (models : list jsstring) : jsstring :=
  lit "Comparison of " ++ number_to_string (Z.of_nat (length models))
    ++ lit " models:" ++ nl ++ nl.

(** The blocks of the results that come before a given one, each closed
    by the separator, and of those that come after it, each opened by
    the separator. *)
Definition blocks_before (results : list ComparisonResult) : jsstring :=
  concat (map (fun result => format_result result ++ separator) results).

Definition blocks_after (results : list ComparisonResult) : jsstring :=
  concat (map (fun result => separator ++ format_result result) results).

(** The requests that the remote has received from a task: those that
    have settled and the one that is still pending. *)
Definition in_flight {Op T R} (t : Task Op T R) : list Op :=
  match code t with
  | Await op _ => [op]
  | _ => []
  end.

Definition calls_received {Op T R} (t : Task Op T R) : list Op :=
  calls_of (trace t) ++ in_flight t.

(* ===================================================================== *)
(** * Properties                                                          *)
(* ===================================================================== *)

(** ** Strings *)

Lemma jsstring_eqb_eq (a b : jsstring) : jsstring_eqb a b = true <-> a = b.
Proof. unfold jsstring_eqb. apply bool_decide_eq_true. Qed.

Lemma jsstring_eqb_neq (a b : jsstring) : jsstring_eqb a b = false <-> a <> b.
Proof. unfold jsstring_eqb. apply bool_decide_eq_false. Qed.

Lemma or_null_spec (s : jsstring) :
  or_null s = if decide (s = []) then None else Some s.
Proof. destruct s; reflexivity. Qed.

Lemma or_null_not_empty (s : jsstring) : or_null s <> Some [].
Proof. destruct s; discriminate. Qed.

(** Joining with the empty separator is concatenation. *)
Lemma join_empty_separator (l : list (option jsstring)) :
  join [] l = concat (map (default []) l).
Proof.
  induction l as [|x [|y rest] IH]; simpl in *.
  - reflexivity.
  - now rewrite app_nil_r.
  - now rewrite IH.
Qed.

(** A slice from the start is a prefix. *)
Lemma slice_from_start (s : jsstring) (n : nat) :
  slice s 0 (Z.of_nat n) = take n s.
Proof.
  unfold slice. simpl.
  destruct (Z.of_nat n <? 0) eqn:E; [apply Z.ltb_lt in E; lia|].
  replace (Z.to_nat (0 `min` Z.of_nat (length s))) with 0%nat by lia.
  rewrite drop_0.
  destruct (decide (n <= length s)%nat) as [Hle|Hgt].
  - f_equal. lia.
  - rewrite !take_ge by lia. reflexivity.
Qed.

(** ** Response Normalizer *)

(** The code's filter, map and join compute the specification's
    concatenation of text payloads. *)
Lemma text_parts_joined (parts : list ContentPart) :
  join [] (map part_text (filter is_text_part parts)) = text_payloads parts.
Proof.
  rewrite join_empty_separator.
  induction parts as [|p rest IH]; [reflexivity|].
  rewrite filter_cons. simpl text_payloads.
  destruct (decide (is_text_part p)) as [Hp|Hp].
  - apply Is_true_true in Hp. unfold is_text_part in Hp.
    apply andb_true_iff in Hp as [Ht Hs].
    apply bool_decide_eq_true in Hs as [payload Hs].
    rewrite Hs, Ht. simpl. rewrite Hs. simpl. now rewrite IH.
  - apply Is_true_false in Hp. unfold is_text_part in Hp.
    destruct (part_text p) as [payload|] eqn:Ep; [|exact IH].
    destruct (jsstring_eqb (part_type p) (lit "text")) eqn:Et; [|exact IH].
    simpl in Hp. discriminate.
Qed.

(** Without a text-kind part there is no payload to keep. *)
Lemma text_payloads_no_text_part (parts : list ContentPart) :
  Forall (fun p => part_type p <> lit "text") parts -> text_payloads parts = [].
Proof.
  induction 1 as [|p rest Hp _ IH]; [reflexivity|].
  simpl. apply jsstring_eqb_neq in Hp. rewrite Hp, IH.
  now destruct (part_text p).
Qed.

(** The reasoning side channel is absent or a non-empty text. *)
Lemma extracted_reasoning_not_empty (message : OpenRouterMessage) :
  ex_reasoning (extractMessageContent message) <> Some [].
Proof.
  unfold extractMessageContent. simpl.
  destruct (reasoning_content message) as [[|c r]|]; simpl; discriminate.
Qed.

(** C4. When the message content is an ordered sequence of parts, the
    normaliser keeps the payloads of the parts tagged text-kind that have
    a text payload and concatenates them in order with no separator; the
    content is that concatenation when it is not empty and absent when it
    is empty, in particular when no part is text-kind, and it is never
    the empty string.  Parts [text "A"], [other], [text "B"] give "AB". *)
Theorem C4_structured_content_is_joined_text (message : OpenRouterMessage)
    (parts : list ContentPart) :
  content message = ContentParts parts ->
  let reply := ex_content (extractMessageContent message) in
  (text_payloads parts <> [] -> reply = Some (text_payloads parts))
  /\ (text_payloads parts = [] -> reply = None)
  /\ (Forall (fun p => part_type p <> lit "text") parts -> reply = None)
  /\ reply <> Some []
  /\ ex_content (extractMessageContent
        {| role := role message;
           content := ContentParts [text_part "A"; image_part; text_part "B"];
           reasoning_content := reasoning_content message;
           tool_calls := tool_calls message |}) = Some (lit "AB").
Proof.
  intros Hc reply.
  assert (Hr : reply = or_null (text_payloads parts)).
  { subst reply. unfold extractMessageContent. rewrite Hc. simpl.
    now rewrite text_parts_joined. }
  rewrite Hr, or_null_spec. repeat split.
  - intros Hne. now rewrite decide_False.
  - intros He. now rewrite decide_True.
  - intros Hall. now rewrite decide_True by now apply text_payloads_no_text_part.
  - rewrite <- or_null_spec. apply or_null_not_empty.
Qed.

Lemma C4_witness :
  ex_content (extractMessageContent
    {| role := lit "assistant";
       content := ContentParts [text_part "A"; image_part; text_part "B"];
       reasoning_content := None;
       tool_calls := None |}) = Some (lit "AB").
Proof.
  refine (proj1 (C4_structured_content_is_joined_text
    {| role := lit "assistant";
       content := ContentParts [text_part "A"; image_part; text_part "B"];
       reasoning_content := None;
       tool_calls := None |}
    [text_part "A"; image_part; text_part "B"] _) _).
  - reflexivity.
  - vm_compute. discriminate.
Defined.

(** C8. A message whose content is [null] or missing normalises to an
    absent content; a message whose content is plain text normalises to
    that text, unchanged (the empty text included). *)
Theorem C8_null_and_plain_text_content (r : jsstring)
    (reasoning : option jsstring) (tools : option (list Json)) :
  let message c :=
    {| role := r; content := c; reasoning_content := reasoning; tool_calls := tools |} in
  ex_content (extractMessageContent (message ContentNull)) = None
  /\ ex_content (extractMessageContent (message ContentUndefined)) = None
  /\ forall s, ex_content (extractMessageContent (message (ContentText s))) = Some s.
Proof. repeat split. Qed.

(** ** Resilient Invoker *)

Lemma isRetryableError_spec (error : Thrown) :
  isRetryableError error = true
  <-> response_status error = Some 429 \/ response_status error = Some 402.
Proof.
  unfold isRetryableError.
  rewrite orb_true_iff, !bool_decide_eq_true. reflexivity.
Qed.

Lemma attempts_app {Op} (tr1 tr2 : list (Event Op)) :
  attempts (tr1 ++ tr2) = (attempts tr1 + attempts tr2)%nat.
Proof. unfold attempts. now rewrite filter_app, length_app. Qed.

Section RetryFacts.
Context {Op T : Type}.
Variable world : Oracle Op T.
Variable operation : Op.
Variable maxRetries : Z.
Variable baseDelay : Q.

Local Abbreviation loop := (retry_loop (T := T) operation maxRetries baseDelay).
Local Abbreviation passes := (passes_from maxRetries).

(** No pass is left exactly when the loop guard fails. *)
Lemma loop_guard (attempt : Z) :
  passes attempt = 0%nat <-> ~ attempt <= maxRetries.
Proof. unfold passes_from. lia. Qed.

(** A pass taken leaves the passes of [attempt + 1]. *)
Lemma loop_next (attempt : Z) :
  attempt <= maxRetries -> passes attempt = S (passes (attempt + 1)).
Proof. unfold passes_from. lia. Qed.

(** Run alone, the invoker is the loop entered at attempt 0. *)
Lemma exec_retryWithBackoff :
  exec world (retryWithBackoff operation maxRetries baseDelay)
  = finish world (loop (passes (Z.of_nat 0)) (Z.of_nat 0)) 0 0 [].
Proof. reflexivity. Qed.

(** The operation fulfils: its value is returned at once. *)
Lemma retry_pass_fulfilled (n d : nat) (tr : list (Event Op)) (value : T) :
  Z.of_nat n <= maxRetries ->
  outcomes world n operation = Fulfilled value ->
  finish world (loop (passes (Z.of_nat n)) (Z.of_nat n)) n d tr
  = {| code := Return value; calls := S n; draws := d;
       trace := tr ++ [Called operation] |}.
Proof.
  intros Hle Hout. rewrite (loop_next _ Hle). simpl. now rewrite Hout.
Qed.

(** The operation rejects and the error is rethrown: it is not
    retryable, or this was the last pass. *)
Lemma retry_pass_thrown (n d : nat) (tr : list (Event Op)) (error : Thrown) :
  Z.of_nat n <= maxRetries ->
  outcomes world n operation = Rejected error ->
  isRetryableError error = false \/ Z.of_nat n = maxRetries ->
  finish world (loop (passes (Z.of_nat n)) (Z.of_nat n)) n d tr
  = {| code := Throw error; calls := S n; draws := d;
       trace := tr ++ [Called operation] |}.
Proof.
  intros Hle Hout Hwhy. rewrite (loop_next _ Hle). simpl. rewrite Hout.
  replace (isRetryableError error && (Z.of_nat n <? maxRetries)) with false;
    [reflexivity|].
  destruct Hwhy as [-> | Hlast]; [reflexivity|].
  rewrite (proj2 (Z.ltb_ge _ _)) by lia. now rewrite andb_false_r.
Qed.

(** The operation rejects with a retryable error and retries remain:
    the delay is drawn, announced and slept, and the next pass runs. *)
Lemma retry_pass_retried (n d : nat) (tr : list (Event Op)) (error : Thrown) :
  Z.of_nat n < maxRetries ->
  outcomes world n operation = Rejected error ->
  isRetryableError error = true ->
  finish world (loop (passes (Z.of_nat n)) (Z.of_nat n)) n d tr
  = finish world (loop (passes (Z.of_nat (S n))) (Z.of_nat (S n))) (S n) (S d)
      (tr ++ retried_pass world operation maxRetries baseDelay n d error).
Proof.
  intros Hlt Hout Hretry. rewrite (loop_next (Z.of_nat n)) by lia.
  simpl finish. rewrite Hout, Hretry.
  rewrite (proj2 (Z.ltb_lt _ _)) by lia. simpl.
  rewrite Nat2Z.inj_succ, <- Z.add_1_r.
  unfold retried_pass, backoff_delay. now rewrite <- !app_assoc.
Qed.

(** The operation rejecting with a retryable error on every attempt,
    the loop entered at attempt [n] makes the remaining attempts and
    rethrows the error of the last one. *)
Lemma retry_all_retryable (k n d : nat) (tr : list (Event Op)) :
  Z.of_nat n + Z.of_nat k = maxRetries ->
  (forall i, exists error,
      outcomes world i operation = Rejected error
      /\ isRetryableError error = true) ->
  exists last,
    outcomes world (Z.to_nat maxRetries) operation = Rejected last
    /\ let t := finish world (loop (passes (Z.of_nat n)) (Z.of_nat n)) n d tr in
       code t = Throw last
       /\ calls t = S (Z.to_nat maxRetries)
       /\ attempts (trace t) = (attempts tr + S k)%nat
       /\ length (delays (trace t)) = (length (delays tr) + k)%nat.
Proof.
  revert n d tr. induction k as [|k IH]; intros n d tr Hsum Hall.
  - destruct (Hall n) as [error [Hout Hretry]].
    exists error. replace (Z.to_nat maxRetries) with n by lia.
    split; [exact Hout|].
    rewrite (retry_pass_thrown n d tr error) by (auto; lia). simpl.
    repeat split.
    + rewrite attempts_app. reflexivity.
    + unfold delays. rewrite omap_app, length_app. simpl. lia.
  - destruct (Hall n) as [error [Hout Hretry]].
    destruct (IH (S n) (S d)
                (tr ++ retried_pass world operation maxRetries baseDelay n d error))
      as [last [Hlast Hrun]]; [lia | exact Hall |].
    exists last. split; [exact Hlast|].
    rewrite (retry_pass_retried n d tr error) by (auto; lia).
    destruct Hrun as (Hcode & Hcalls & Hatt & Hdel).
    repeat split; [exact Hcode | exact Hcalls | |].
    + rewrite Hatt, attempts_app. simpl. unfold attempts. simpl. lia.
    + rewrite Hdel. unfold delays. rewrite omap_app, length_app. simpl. lia.
Qed.
End RetryFacts.



(** C3. When every attempt of the operation fails with status 429, the
    invoker called with [maxRetries] makes exactly [maxRetries + 1]
    attempts, sleeps [maxRetries] times in between, and then propagates
    the error of the last attempt, a 429. *)
Theorem C3_exhausted_retries_propagate_last_error {Op T : Type}
    (world : Oracle Op T) (operation : Op) (maxRetries : Z) (baseDelay : Q) :
  0 <= maxRetries ->
  (forall n, exists error,
      outcomes world n operation = Rejected error
      /\ response_status error = Some 429) ->
  let t := exec world (retryWithBackoff operation maxRetries baseDelay) in
  Z.of_nat (attempts (trace t)) = maxRetries + 1
  /\ Z.of_nat (length (delays (trace t))) = maxRetries
  /\ exists last,
       outcomes world (Z.to_nat maxRetries) operation = Rejected last
       /\ response_status last = Some 429
       /\ settlement t = Some (Rejected last).
Proof.
  intros Hmax Hall t.
  destruct (retry_all_retryable world operation maxRetries baseDelay
              (Z.to_nat maxRetries) 0 0 []) as [last [Hlast Hrun]].
  - simpl. lia.
  - intros i. destruct (Hall i) as [error [Hout Hstatus]].
    exists error. split; [exact Hout|]. apply isRetryableError_spec. now left.
  - subst t. rewrite exec_retryWithBackoff.
    destruct Hrun as (Hcode & _ & Hatt & Hdel). repeat split.
    + rewrite Hatt. simpl. lia.
    + rewrite Hdel. simpl. lia.
    + exists last. split; [exact Hlast|]. split.
      * destruct (Hall (Z.to_nat maxRetries)) as [error [Hout Hstatus]].
        congruence.
      * unfold settlement. now rewrite Hcode.
Qed.

Lemma C3_witness :
  let t := exec (always_rejects 429) (retryWithBackoff tt 3 1000) in
  Z.of_nat (attempts (trace t)) = 3 + 1
  /\ Z.of_nat (length (delays (trace t))) = 3
  /\ exists last,
       outcomes (always_rejects 429) (Z.to_nat 3) tt = Rejected last
       /\ response_status last = Some 429
       /\ settlement t = Some (Rejected last).
Proof.
  refine (C3_exhausted_retries_propagate_last_error
            (always_rejects 429) tt 3 1000 _ _).
  - lia.
  - intros n. exists (error_with_status 429). split; reflexivity.
Defined.

(** C7. With [maxRetries = 3], an operation that fails with status 429
    on its first two attempts and fulfils on the third has its value
    returned, after exactly three attempts and the two delays between
    them. *)
Theorem C7_two_failures_then_success {Op T : Type}
    (world : Oracle Op T) (operation : Op) (baseDelay : Q)
    (first second : Thrown) (value : T) :
  outcomes world 0%nat operation = Rejected first ->
  response_status first = Some 429 ->
  outcomes world 1%nat operation = Rejected second ->
  response_status second = Some 429 ->
  outcomes world 2%nat operation = Fulfilled value ->
  let t := exec world (retryWithBackoff operation 3 baseDelay) in
  settlement t = Some (Fulfilled value)
  /\ attempts (trace t) = 3%nat
  /\ trace t = retried_pass world operation 3 baseDelay 0 0 first
                 ++ retried_pass world operation 3 baseDelay 1 1 second
                 ++ [Called operation].
Proof.
  intros H0 S0 H1 S1 H2 t. subst t. rewrite exec_retryWithBackoff.
  assert (R0 : isRetryableError first = true)
    by (apply isRetryableError_spec; now left).
  assert (R1 : isRetryableError second = true)
    by (apply isRetryableError_spec; now left).
  rewrite (retry_pass_retried world operation 3 baseDelay 0 0 [] first)
    by (auto; lia).
  rewrite (retry_pass_retried world operation 3 baseDelay 1 1 _ second)
    by (auto; lia).
  rewrite (retry_pass_fulfilled world operation 3 baseDelay 2 2 _ value)
    by (auto; lia).
  simpl. repeat split.
Qed.

Lemma C7_witness :
  let t := exec fails_twice (retryWithBackoff tt 3 1000) in
  settlement t = Some (Fulfilled 7%nat)
  /\ attempts (trace t) = 3%nat
  /\ trace t = retried_pass fails_twice tt 3 1000 0 0 (error_with_status 429)
                 ++ retried_pass fails_twice tt 3 1000 1 1 (error_with_status 429)
                 ++ [Called tt].
Proof.
  refine (C7_two_failures_then_success fails_twice tt 1000
            (error_with_status 429) (error_with_status 429) 7%nat _ _ _ _ _);
    reflexivity.
Defined.

(** ** Single-Model Chat Orchestrator *)

(** C6 (as amended). Without a [system_prompt] the conversation is the
    single user turn carrying the message; with a non-empty
    [system_prompt] it is exactly two turns, the system turn and then
    the user turn.  This is the conversation of the posted request. *)
Theorem C6_conversation_turns (cfg : Config) (model message : jsstring)
    (max_tokens temperature : Q) (prompt : jsstring) :
  prompt <> [] ->
  let params sp :=
    {| ChatRequest.model := model; ChatRequest.message := message;
       ChatRequest.max_tokens := max_tokens;
       ChatRequest.temperature := temperature;
       ChatRequest.system_prompt := sp |} in
  chat_messages None message = [user_turn message]
  /\ chat_messages (Some prompt) message = [system_turn prompt; user_turn message]
  /\ posted_messages cfg (params None) = Some [user_turn message]
  /\ posted_messages cfg (params (Some prompt))
     = Some [system_turn prompt; user_turn message].
Proof.
  intros Hne params.
  destruct prompt as [|c rest]; [congruence|]. repeat split.
Qed.

Lemma C6_witness :
  chat_messages None (lit "hi") = [user_turn (lit "hi")]
  /\ chat_messages (Some (lit "be brief")) (lit "hi")
     = [system_turn (lit "be brief"); user_turn (lit "hi")].
Proof.
  pose proof (C6_conversation_turns
                {| baseURL := lit "https://openrouter.ai/api/v1"; headers := [] |}
                (lit "demo/echo") (lit "hi") 1000 (7 # 10) (lit "be brief")) as H.
  split; [apply H | apply H]; discriminate.
Defined.

(** The claim without the amendment fails: an empty [system_prompt] is
    supplied, and the conversation has one turn, not two. *)
Lemma C6_counterexample :
  chat_messages (Some (lit "")) (lit "hi") = [user_turn (lit "hi")]
  /\ chat_messages (Some (lit "")) (lit "hi")
     <> [system_turn (lit ""); user_turn (lit "hi")]
  /\ length (chat_messages (Some (lit "")) (lit "hi")) <> 2%nat.
Proof. repeat split; discriminate. Qed.

(** C9. A [system_prompt] that is the empty string is treated as absent:
    the conversation, and so the posted request, holds the single user
    turn and no system turn. *)
Theorem C9_empty_system_prompt_is_absent (cfg : Config) (model message : jsstring)
    (max_tokens temperature : Q) :
  let params :=
    {| ChatRequest.model := model; ChatRequest.message := message;
       ChatRequest.max_tokens := max_tokens;
       ChatRequest.temperature := temperature;
       ChatRequest.system_prompt := Some [] |} in
  chat_messages (Some []) message = [user_turn message]
  /\ chat_messages (Some []) message = chat_messages None message
  /\ posted_messages cfg params = Some [user_turn message].
Proof. repeat split. Qed.

(** ** Comparison rendering *)

Lemma reasoning_excerpt_long (r : jsstring) :
  (200 < length r)%nat -> reasoning_excerpt r = take 200 r ++ lit "...".
Proof.
  intros Hlen. unfold reasoning_excerpt.
  change (slice r 0 200) with (slice r 0 (Z.of_nat 200)).
  rewrite slice_from_start.
  rewrite (proj2 (Z.gtb_gt _ _)) by lia. reflexivity.
Qed.

Lemma reasoning_excerpt_short (r : jsstring) :
  (length r <= 200)%nat -> reasoning_excerpt r = r.
Proof.
  intros Hlen. unfold reasoning_excerpt.
  change (slice r 0 200) with (slice r 0 (Z.of_nat 200)).
  rewrite slice_from_start, take_ge by lia.
  destruct (Z.of_nat (length r) >? 200) eqn:E.
  - apply Z.gtb_gt in E. lia.
  - apply app_nil_r.
Qed.

(** ** Tasks: running alone and running in turns *)

Section RunFacts.
Context {Op T R : Type}.
Variable world : Oracle Op T.

Lemma resume_sync (p : Prog Op T R) (c d : nat) (tr : list (Event Op)) :
  resume world (sync world p c d tr) = finish world p c d tr.
Proof.
  revert c d tr. induction p as [r|e|op k IH|k IH|line k IH|delay k IH];
    intros c d tr; simpl; try reflexivity.
  - apply IH.
  - apply IH.
Qed.

Lemma step_await (op : Op) (k : Settled T -> Prog Op T R) (c d : nat)
    (tr : list (Event Op)) :
  step world {| code := Await op k; calls := c; draws := d; trace := tr |}
  = sync world (k (outcomes world c op)) (S c) d (tr ++ [Called op]).
Proof. reflexivity. Qed.

Lemma step_timeout (delay : Q) (k : Prog Op T R) (c d : nat)
    (tr : list (Event Op)) :
  step world {| code := SetTimeout delay k; calls := c; draws := d; trace := tr |}
  = sync world k c d (tr ++ [Slept delay]).
Proof. reflexivity. Qed.

(** A turn does not change where the task ends. *)
Lemma resume_step (t : Task Op T R) : resume world (step world t) = resume world t.
Proof.
  destruct t as [p c d tr]. unfold step. simpl.
  destruct p; try reflexivity; unfold resume at 2; simpl; apply resume_sync.
Qed.

Lemma resume_iter_step (n : nat) (t : Task Op T R) :
  resume world (Nat.iter n (step world) t) = resume world t.
Proof.
  induction n as [|n IH]; [reflexivity|]. simpl. now rewrite resume_step.
Qed.

(** A settled task is left alone by further turns. *)
Lemma settled_step (t : Task Op T R) :
  is_Some (settlement t) -> step world t = t.
Proof.
  unfold settlement, step. destruct (code t); intros [x Hx];
    (reflexivity || discriminate).
Qed.

Lemma settled_resume (t : Task Op T R) :
  is_Some (settlement t) -> resume world t = t.
Proof.
  destruct t as [p c d tr]. unfold settlement, resume. simpl.
  destruct p; intros [x Hx]; (reflexivity || discriminate).
Qed.

Lemma settled_iter_step (n : nat) (t : Task Op T R) :
  is_Some (settlement t) -> Nat.iter n (step world) t = t.
Proof.
  intros Hs. induction n as [|n IH]; [reflexivity|].
  simpl. rewrite IH. now apply settled_step.
Qed.

(** Whatever turns it was given, a task that has settled is where it
    would be had it run alone. *)
Lemma settled_is_resumed (n : nat) (t : Task Op T R) :
  is_Some (settlement (Nat.iter n (step world) t)) ->
  Nat.iter n (step world) t = resume world t.
Proof.
  intros Hs. rewrite <- (resume_iter_step n t). symmetry.
  now apply settled_resume.
Qed.

(** A task that has returned stays so. *)
Lemma returned_stays (n : nat) (t : Task Op T R) :
  is_Some (fulfilment t) -> is_Some (fulfilment (Nat.iter n (step world) t)).
Proof.
  intros Hf. rewrite settled_iter_step; [exact Hf|].
  unfold fulfilment, settlement in *.
  destruct (code t); eauto; destruct Hf; discriminate.
Qed.

(** Run alone, the code settles. *)
Lemma finish_settles (p : Prog Op T R) (c d : nat) (tr : list (Event Op)) :
  is_Some (settlement (finish world p c d tr)).
Proof.
  revert c d tr. induction p as [r|e|op k IH|k IH|line k IH|delay k IH];
    intros c d tr; simpl; eauto.
Qed.

Lemma resume_spawn (p : Prog Op T R) : resume world (spawn world p) = exec world p.
Proof. apply resume_sync. Qed.
End RunFacts.

Section SettleWith.
Context {Op T A B : Type}.
Variable world : Oracle Op T.
Variable on_value : A -> B.
Variable on_error : Thrown -> B.

(** A function that returns from its [try] and from its [catch] does
    what the awaited code does and then returns, however that settles. *)
Lemma finish_settle_with (p : Prog Op T A) (c d : nat) (tr : list (Event Op)) :
  exists outcome,
    settlement (finish world p c d tr) = Some outcome
    /\ finish world (settle_with on_value on_error p) c d tr
       = {| code := Return match outcome with
                           | Fulfilled value => on_value value
                           | Rejected error => on_error error
                           end;
            calls := calls (finish world p c d tr);
            draws := draws (finish world p c d tr);
            trace := trace (finish world p c d tr) |}.
Proof.
  revert c d tr. induction p as [r|e|op k IH|k IH|line k IH|delay k IH];
    intros c d tr; simpl.
  - exists (Fulfilled r). split; reflexivity.
  - exists (Rejected e). split; reflexivity.
  - apply IH.
  - apply IH.
  - apply IH.
  - apply IH.
Qed.
End SettleWith.

(** ** The event loop *)

Lemma omap_all_None {A B} (f : A -> option B) (l : list A) :
  Forall (fun x => f x = None) l -> omap f l = [].
Proof.
  induction 1 as [|x rest Hx _ IH]; [reflexivity|].
  simpl. now rewrite Hx.
Qed.

Section EventLoopFacts.
Context {Op T R : Type}.
Variable worlds : nat -> Oracle Op T.

(** A turn touches the slot it is given to and no other. *)
Lemma tasks_turn (l : Loop Op T R) (i j : nat) :
  tasks (turn worlds l i) !! j
  = if decide (i = j) then step (worlds i) <$> tasks l !! j else tasks l !! j.
Proof.
  unfold turn. destruct (tasks l !! i) as [t|] eqn:Et; simpl.
  - destruct (decide (i = j)) as [<-|Hne].
    + rewrite list_lookup_insert_eq by (eapply lookup_lt_Some; eauto).
      now rewrite Et.
    + now apply list_lookup_insert_ne.
  - destruct (decide (i = j)) as [<-|Hne]; [now rewrite Et | reflexivity].
Qed.

(** After a schedule, each slot has taken its own turns, and only
    those: the order in which the slots were served does not matter. *)
Lemma tasks_run_schedule (schedule : list nat) (l : Loop Op T R) (j : nat) :
  tasks (run_schedule worlds schedule l) !! j
  = Nat.iter (turns_of j schedule) (step (worlds j)) <$> tasks l !! j.
Proof.
  revert l. induction schedule as [|i rest IH]; intros l.
  - simpl. now destruct (tasks l !! j).
  - change (run_schedule worlds (i :: rest) l)
      with (run_schedule worlds rest (turn worlds l i)).
    rewrite IH, tasks_turn. unfold turns_of.
    destruct (decide (i = j)) as [<-|Hne].
    + rewrite count_occ_cons_eq by reflexivity.
      destruct (tasks l !! i) as [t|]; [|reflexivity].
      simpl fmap. f_equal. symmetry. exact (Nat.iter_succ_r _ _ _).
    + now rewrite count_occ_cons_neq.
Qed.

(** Where no task can reject, [Promise.all] never sees a rejection. *)
Lemma no_rejection_run (schedule : list nat) (l : Loop Op T R) :
  (forall j t n, tasks l !! j = Some t ->
                 rejection (Nat.iter n (step (worlds j)) t) = None) ->
  first_rejection l = None ->
  first_rejection (run_schedule worlds schedule l) = None.
Proof.
  revert l. induction schedule as [|i rest IH]; intros l Hnever Hnone.
  - exact Hnone.
  - change (run_schedule worlds (i :: rest) l)
      with (run_schedule worlds rest (turn worlds l i)).
    apply IH.
    + intros j t n Ht. rewrite tasks_turn in Ht.
      destruct (decide (i = j)) as [<-|Hne]; [|eauto].
      destruct (tasks l !! i) as [t0|] eqn:Et0; [|discriminate].
      simpl in Ht. injection Ht as <-.
      rewrite <- Nat.iter_succ_r. eauto.
    + unfold turn. destruct (tasks l !! i) as [t|] eqn:Et; [|exact Hnone].
      simpl. rewrite Hnone. apply (Hnever i t 1%nat Et).
Qed.

Lemma length_tasks_run_schedule (schedule : list nat) (l : Loop Op T R) :
  length (tasks (run_schedule worlds schedule l)) = length (tasks l).
Proof.
  revert l. induction schedule as [|i rest IH]; intros l; [reflexivity|].
  change (run_schedule worlds (i :: rest) l)
    with (run_schedule worlds rest (turn worlds l i)).
  rewrite IH. unfold turn.
  destruct (tasks l !! i); [apply length_insert | reflexivity].
Qed.

Lemma length_tasks_spawn_all (progs : list (Prog Op T R)) :
  length (tasks (spawn_all worlds progs)) = length progs.
Proof. unfold spawn_all. simpl. apply length_imap. Qed.

Lemma tasks_spawn_all (progs : list (Prog Op T R)) (j : nat) :
  tasks (spawn_all worlds progs) !! j = spawn (worlds j) <$> progs !! j.
Proof. unfold spawn_all. simpl. now rewrite list_lookup_imap. Qed.

Lemma no_rejection_spawn_all (progs : list (Prog Op T R)) :
  (forall j p, progs !! j = Some p -> rejection (spawn (worlds j) p) = None) ->
  first_rejection (spawn_all worlds progs) = None.
Proof.
  intros Hnever. unfold spawn_all. simpl.
  rewrite omap_all_None; [reflexivity|].
  apply Forall_lookup_2. intros j t Ht.
  rewrite list_lookup_imap in Ht.
  destruct (progs !! j) as [p|] eqn:Ep; [|discriminate].
  simpl in Ht. injection Ht as <-. eauto.
Qed.
End EventLoopFacts.

(** ** Multi-Model Comparison Orchestrator *)

Section SettleBound.
Context {Op T B : Type}.
Variable world : Oracle Op T.
Variable on_value : T -> B.
Variable on_error : Thrown -> B.
Variable operation : Op.
Variable maxRetries : Z.
Variable baseDelay : Q.

(** A retried call inside [try]/[catch] is suspended at most twice per
    pass of the loop, once on the operation and once on the timer: two
    turns per pass are enough for it to return. *)
Lemma retry_settles_within (n : nat) :
  forall (attempt : Z) (c d : nat) (tr : list (Event Op)) (m : nat),
    (2 * n <= m)%nat ->
    is_Some (fulfilment
      (Nat.iter m (step world)
         (sync world
            (settle_with on_value on_error
               (retry_loop operation maxRetries baseDelay n attempt))
            c d tr))).
Proof.
  induction n as [|n IH]; intros attempt c d tr m Hm.
  - apply returned_stays. simpl. eauto.
  - destruct m as [|[|m]]; [lia | lia |].
    rewrite Nat.iter_succ_r. simpl sync. rewrite step_await.
    destruct (outcomes world c operation) as [value|error].
    + apply returned_stays. simpl. eauto.
    + destruct (isRetryableError error && (attempt <? maxRetries)).
      * simpl sync. rewrite Nat.iter_succ_r, step_timeout.
        apply IH. lia.
      * apply returned_stays. simpl. eauto.
Qed.
End SettleBound.

Section CompareFacts.
Variable cfg : Config.
Variable message : jsstring.
Variable max_tokens : Q.

Local Abbreviation one := (compare_one cfg message max_tokens).
Local Abbreviation call := (compare_call cfg message max_tokens).

(** The mapped function is the retried call with a return on both
    sides of its [try]/[catch]. *)
Lemma compare_one_settles_with (model : jsstring) :
  one model
  = settle_with (succeeded_entry model) (fun error => Failed model (error_text error))
      (call model).
Proof. reflexivity. Qed.

(** Run alone, the function does what its call does and returns the
    entry of that call's outcome. *)
Lemma exec_compare_one (world : Oracle HttpRequest AxiosResponse) (model : jsstring) :
  exists outcome,
    settlement (exec world (call model)) = Some outcome
    /\ exec world (one model)
       = {| code := Return (comparison_entry model outcome);
            calls := calls (exec world (call model));
            draws := draws (exec world (call model));
            trace := trace (exec world (call model)) |}.
Proof.
  rewrite compare_one_settles_with. unfold exec.
  destruct (finish_settle_with world (succeeded_entry model)
              (fun error => Failed model (error_text error))
              (call model) 0 0 []) as [outcome [Hs Hf]].
  exists outcome. split; [exact Hs|]. rewrite Hf. now destruct outcome.
Qed.

(** Whatever turns it has had, the function has not rejected, and if
    it has returned, it has returned the entry of its call's outcome. *)
Lemma compare_task_after_turns (world : Oracle HttpRequest AxiosResponse)
    (model : jsstring) (n : nat) :
  let t := Nat.iter n (step world) (spawn world (one model)) in
  rejection t = None
  /\ forall r, fulfilment t = Some r ->
       exists outcome,
         settlement (exec world (call model)) = Some outcome
         /\ r = comparison_entry model outcome.
Proof.
  intros t.
  destruct (exec_compare_one world model) as [outcome [Hout Hexec]].
  assert (Hsettled : is_Some (settlement t) ->
                     code t = Return (comparison_entry model outcome)).
  { intros Hs. subst t. rewrite (settled_is_resumed world n _ Hs).
    rewrite resume_spawn, Hexec. reflexivity. }
  unfold rejection, fulfilment, settlement in *.
  destruct (code t) as [r|e|op k|k|line k|delay k] eqn:Ec;
    try (split; [reflexivity | discriminate]).
  - split; [reflexivity|]. intros r' [= <-].
    exists outcome. split; [exact Hout|].
    specialize (Hsettled (ltac:(eauto))). congruence.
  - specialize (Hsettled (ltac:(eauto))). discriminate.
Qed.

(** Eight turns are enough for the function to return. *)
Lemma compare_task_returns (world : Oracle HttpRequest AxiosResponse)
    (model : jsstring) (n : nat) :
  (8 <= n)%nat ->
  is_Some (fulfilment (Nat.iter n (step world) (spawn world (one model)))).
Proof.
  intros Hn. rewrite compare_one_settles_with.
  apply (retry_settles_within world (succeeded_entry model)
           (fun error => Failed model (error_text error)) _
           default_maxRetries default_baseDelay 4 0 0%nat 0%nat [] n).
  simpl. lia.
Qed.

Variable worlds : nat -> Oracle HttpRequest AxiosResponse.
Variable schedule : list nat.
Variable models : list jsstring.

Local Abbreviation params :=
  ({| CompareModels.models := models;
      CompareModels.message := message;
      CompareModels.max_tokens := max_tokens |}).

Lemma compare_slot (j : nat) :
  tasks (run_schedule worlds schedule
           (spawn_all worlds (compare_promises cfg params))) !! j
  = (fun model =>
       Nat.iter (turns_of j schedule) (step (worlds j))
                (spawn (worlds j) (one model))) <$> models !! j.
Proof.
  rewrite tasks_run_schedule, tasks_spawn_all.
  unfold compare_promises. simpl. rewrite list_lookup_fmap.
  now destruct (models !! j).
Qed.

(** [Promise.all] is never rejected: it is pending, or fulfilled with
    the values of the slots. *)
Lemma compare_results_unrejected :
  compare_results cfg worlds schedule params
  = Fulfilled <$>
      mapM fulfilment
        (tasks (run_schedule worlds schedule
                  (spawn_all worlds (compare_promises cfg params)))).
Proof.
  unfold compare_results, promise_all.
  rewrite no_rejection_run; [reflexivity | |].
  - intros j t n Ht. rewrite tasks_spawn_all in Ht.
    unfold compare_promises in Ht. simpl in Ht. rewrite list_lookup_fmap in Ht.
    destruct (models !! j) as [model|]; [|discriminate].
    simpl in Ht. injection Ht as <-.
    apply (compare_task_after_turns (worlds j) model n).
  - apply no_rejection_spawn_all. intros j p Hp.
    unfold compare_promises in Hp. simpl in Hp. rewrite list_lookup_fmap in Hp.
    destruct (models !! j) as [model|]; [|discriminate].
    simpl in Hp. injection Hp as <-.
    apply (compare_task_after_turns (worlds j) model 0).
Qed.

(** When [Promise.all] fulfils, under any schedule, the results are
    one entry per requested model, at the model's position, each the
    entry of that model's own call. *)
Lemma compare_results_in_request_order (results : list ComparisonResult) :
  compare_results cfg worlds schedule params = Some (Fulfilled results) ->
  length results = length models
  /\ forall j model, models !! j = Some model ->
       exists outcome,
         settlement (exec (worlds j) (call model)) = Some outcome
         /\ results !! j = Some (comparison_entry model outcome).
Proof.
  rewrite compare_results_unrejected. intros Hall.
  destruct (mapM fulfilment _) as [values|] eqn:Hm; [|discriminate].
  injection Hall as ->. apply mapM_Some in Hm.
  split.
  - rewrite <- (Forall2_length _ _ _ Hm).
    rewrite length_tasks_run_schedule, length_tasks_spawn_all.
    unfold compare_promises. simpl. apply length_map.
  - intros j model Hj.
    pose proof (compare_slot j) as Hslot. rewrite Hj in Hslot. simpl in Hslot.
    destruct (Forall2_lookup_l _ _ _ _ _ Hm Hslot) as [r [Hr Hf]].
    destruct (compare_task_after_turns (worlds j) model (turns_of j schedule))
      as [_ Hentry].
    destruct (Hentry r Hf) as [outcome [Hout ->]].
    exists outcome. split; [exact Hout | exact Hr].
Qed.

(** Once every slot has had eight turns, in whatever order,
    [Promise.all] has fulfilled. *)
Lemma compare_results_fulfil :
  (forall j, (j < length models)%nat -> (8 <= turns_of j schedule)%nat) ->
  exists results,
    compare_results cfg worlds schedule params = Some (Fulfilled results).
Proof.
  intros Hfair. rewrite compare_results_unrejected.
  destruct (mapM_is_Some_2 fulfilment
    (tasks (run_schedule worlds schedule
              (spawn_all worlds (compare_promises cfg params)))))
    as [results Hresults].
  - apply Forall_lookup_2. intros j t Ht.
    rewrite compare_slot in Ht.
    destruct (models !! j) as [model|] eqn:Hj; [|discriminate].
    simpl in Ht. injection Ht as <-.
    apply compare_task_returns, Hfair. eapply lookup_lt_Some; eauto.
  - exists results. now rewrite Hresults.
Qed.
End CompareFacts.

(** ** The comparison as a whole *)

Lemma run_schedule_no_tasks {Op T R} (worlds : nat -> Oracle Op T)
    (schedule : list nat) (l : Loop Op T R) :
  tasks l = [] -> run_schedule worlds schedule l = l.
Proof.
  intros Hempty. induction schedule as [|i rest IH]; [reflexivity|].
  change (run_schedule worlds (i :: rest) l)
    with (run_schedule worlds rest (turn worlds l i)).
  unfold turn. rewrite Hempty. simpl. exact IH.
Qed.

(** C1. [compare_models] is asked for the models A, B, C; the call for B
    fails (a fatal error or retries exhausted) and the calls for A and C
    succeed.  Then, in whatever order the calls settle, the results are
    exactly three entries in the order A, B, C: A and C marked succeeded
    with their normalised replies, B marked failed with its error text.
    The comparison is never rejected because of B, and it completes once
    every call has had its turns. *)
Theorem C1_failure_isolated_in_request_order (cfg : Config)
    (worlds : nat -> Oracle HttpRequest AxiosResponse) (schedule : list nat)
    (message : jsstring) (max_tokens : Q) (A B C : jsstring)
    (replyA replyC : AxiosResponse) (errorB : Thrown) :
  let params :=
    {| CompareModels.models := [A; B; C];
       CompareModels.message := message;
       CompareModels.max_tokens := max_tokens |} in
  let call := compare_call cfg message max_tokens in
  settlement (exec (worlds 0%nat) (call A)) = Some (Fulfilled replyA) ->
  settlement (exec (worlds 1%nat) (call B)) = Some (Rejected errorB) ->
  settlement (exec (worlds 2%nat) (call C)) = Some (Fulfilled replyC) ->
  let expected :=
    [ succeeded_entry A replyA; Failed B (error_text errorB); succeeded_entry C replyC ] in
  (forall outcome,
      compare_results cfg worlds schedule params = Some outcome ->
      outcome = Fulfilled expected)
  /\ ((forall j, (j < 3)%nat -> (8 <= turns_of j schedule)%nat) ->
      compare_results cfg worlds schedule params = Some (Fulfilled expected)
      /\ compareModels cfg worlds schedule params
         = Some (Fulfilled (text_result (comparison_report [A; B; C] expected))))
  /\ map result_model expected = [A; B; C]
  /\ map success expected = [true; false; true]
  /\ (instanceof_Error errorB = true -> error_text errorB = error_message errorB).
Proof.
  intros params call HA HB HC expected.
  assert (Hdet : forall outcome,
             compare_results cfg worlds schedule params = Some outcome ->
             outcome = Fulfilled expected).
  { intros outcome Hres. destruct outcome as [results|e].
    - destruct (compare_results_in_request_order cfg message max_tokens worlds
                  schedule [A; B; C] results Hres) as [Hlen Hentries].
      destruct (Hentries 0%nat A eq_refl) as [oA [HoA HrA]].
      destruct (Hentries 1%nat B eq_refl) as [oB [HoB HrB]].
      destruct (Hentries 2%nat C eq_refl) as [oC [HoC HrC]].
      fold call in HoA, HoB, HoC.
      rewrite HA in HoA. rewrite HB in HoB. rewrite HC in HoC.
      injection HoA as <-. injection HoB as <-. injection HoC as <-.
      destruct results as [|r0 [|r1 [|r2 [|r3 rest]]]]; try discriminate.
      simpl in HrA, HrB, HrC.
      injection HrA as ->. injection HrB as ->. injection HrC as ->.
      reflexivity.
    - unfold params in Hres. rewrite compare_results_unrejected in Hres.
      destruct (mapM fulfilment _); discriminate. }
  split; [exact Hdet|]. split; [|repeat split].
  - intros Hfair.
    destruct (compare_results_fulfil cfg message max_tokens worlds schedule
                [A; B; C] Hfair) as [results Hres].
    fold params in Hres. pose proof (Hdet _ Hres) as [= ->].
    split; [exact Hres|]. unfold compareModels. now rewrite Hres.
  - intros Herr. unfold error_text. now rewrite Herr.
Qed.

Lemma C1_witness :
  compare_results demo_config middle_fails last_first
    {| CompareModels.models := [lit "a/one"; lit "b/two"; lit "c/three"];
       CompareModels.message := lit "hi";
       CompareModels.max_tokens := 500 |}
  = Some (Fulfilled
      [ succeeded_entry (lit "a/one") (plain_reply "alpha");
        Failed (lit "b/two") (lit "Request failed");
        succeeded_entry (lit "c/three") (plain_reply "gamma") ]).
Proof.
  refine (proj1 (proj1 (proj2
    (C1_failure_isolated_in_request_order demo_config middle_fails last_first
       (lit "hi") 500 (lit "a/one") (lit "b/two") (lit "c/three")
       (plain_reply "alpha") (plain_reply "gamma") (error_with_status 500)
       _ _ _)) _)).
  - reflexivity.
  - reflexivity.
  - reflexivity.
  - intros j Hj. destruct j as [|[|[|j]]]; [vm_compute; lia .. | lia].
Defined.

(** ** The comparison report *)

Lemma join_head (sep : jsstring) (x : option jsstring) (l : list (option jsstring)) :
  join sep (x :: l)
  = default [] x ++ concat (map (fun y => sep ++ default [] y) l).
Proof.
  revert x. induction l as [|y l IH]; intros x.
  - simpl. now rewrite app_nil_r.
  - change (join sep (x :: y :: l)) with (default [] x ++ sep ++ join sep (y :: l)).
    rewrite IH. simpl. now rewrite <- !app_assoc.
Qed.

Lemma join_tail (sep : jsstring) (l : list (option jsstring)) :
  l <> [] -> concat (map (fun y => sep ++ default [] y) l) = sep ++ join sep l.
Proof.
  destruct l as [|x l]; [congruence|]. intros _.
  rewrite join_head. simpl. now rewrite <- app_assoc.
Qed.

(** The blocks of a report stand in the order of the results, each
    separated from the next by the separator. *)
Lemma join_middle {A} (sep : jsstring) (f : A -> jsstring) (before after : list A) (x : A) :
  join sep (map (Some ∘ f) (before ++ x :: after))
  = concat (map (fun y => f y ++ sep) before) ++ f x
      ++ concat (map (fun y => sep ++ f y) after).
Proof.
  induction before as [|b before IH].
  - change (map (Some ∘ f) ([] ++ x :: after))
      with (Some (f x) :: map (Some ∘ f) after).
    rewrite join_head, map_map. reflexivity.
  - change (map (Some ∘ f) ((b :: before) ++ x :: after))
      with (Some (f b) :: map (Some ∘ f) (before ++ x :: after)).
    rewrite join_head, join_tail.
    + rewrite IH. simpl. now rewrite <- !app_assoc.
    + destruct before; discriminate.
Qed.

Lemma comparison_report_middle (models : list jsstring)
    (before after : list ComparisonResult) (result : ComparisonResult) :
  comparison_report models (before ++ result :: after)
  = report_header models ++ blocks_before before ++ format_result result
      ++ blocks_after after.
Proof.
  unfold comparison_report, report_header, blocks_before, blocks_after.
  rewrite (join_middle separator format_result before after result).
  now rewrite <- !app_assoc.
Qed.

(** C5. In the report of the Comparison Orchestrator, a successful
    result that has reasoning text is rendered as a block in which a
    reasoning longer than 200 characters appears as its first 200
    characters followed by ["..."], and a reasoning of at most 200
    characters appears as it is.  The report is the header followed by
    the blocks of the results in their order, so this block stands in
    the report at the position of its result; and whenever
    [compareModels] answers, the model whose call fulfilled with that
    reasoning has this block at its position in the answer. *)
Theorem C5_reasoning_truncated_at_200 (msg : OpenRouterMessage)
    (model r : jsstring) (u : Usage) :
  ex_reasoning (extractMessageContent msg) = Some r ->
  let reply := extractMessageContent msg in
  let result := Succeeded model (ex_content reply) (ex_reasoning reply) u in
  let block := format_result result in
  ((200 < length r)%nat ->
     length (take 200 r) = 200%nat
     /\ block = block_with_reasoning model (take 200 r ++ lit "...") (ex_content reply) u)
  /\ ((length r <= 200)%nat ->
     block = block_with_reasoning model r (ex_content reply) u)
  /\ block = block_with_reasoning model (rendered_reasoning r) (ex_content reply) u
  /\ (forall models before after,
        comparison_report models (before ++ result :: after)
        = report_header models ++ blocks_before before
            ++ block_with_reasoning model (rendered_reasoning r) (ex_content reply) u
            ++ blocks_after after)
  /\ (forall cfg worlds schedule params j response answer,
        choices_0_message response = msg ->
        usage response = u ->
        CompareModels.models params !! j = Some model ->
        settlement (exec (worlds j)
                      (compare_call cfg (CompareModels.message params)
                         (CompareModels.max_tokens params) model))
        = Some (Fulfilled response) ->
        compareModels cfg worlds schedule params = Some (Fulfilled answer) ->
        exists before after,
          length before = j
          /\ answer
             = text_result
                 (report_header (CompareModels.models params) ++ blocks_before before
                    ++ block_with_reasoning model (rendered_reasoning r)
                         (ex_content reply) u
                    ++ blocks_after after)).
Proof.
  intros Hr reply result block.
  assert (Hne : r <> []).
  { intros ->. now apply (extracted_reasoning_not_empty msg). }
  assert (Hb : block
               = block_with_reasoning model (reasoning_excerpt r) (ex_content reply) u).
  { subst block result reply. rewrite Hr. destruct r as [|c rest]; [congruence|].
    unfold format_result, block_with_reasoning. simpl truthy. cbv iota.
    now rewrite <- !app_assoc. }
  assert (Hrendered : reasoning_excerpt r = rendered_reasoning r).
  { unfold rendered_reasoning. destruct (200 <? length r)%nat eqn:E.
    - apply Nat.ltb_lt in E. now apply reasoning_excerpt_long.
    - apply Nat.ltb_ge in E. now apply reasoning_excerpt_short. }
  assert (Hblock : block
            = block_with_reasoning model (rendered_reasoning r) (ex_content reply) u)
    by now rewrite Hb, Hrendered.
  split; [|split; [|split; [|split]]].
  - intros Hlen. split; [rewrite length_take; lia|].
    now rewrite Hb, reasoning_excerpt_long.
  - intros Hlen. now rewrite Hb, reasoning_excerpt_short.
  - exact Hblock.
  - intros models before after. rewrite comparison_report_middle.
    unfold block in Hblock. now rewrite Hblock.
  - intros cfg worlds schedule [models message max_tokens] j response answer
           Hmsg Hu Hj Hcall Hanswer.
    cbn [CompareModels.models CompareModels.message CompareModels.max_tokens]
      in Hj, Hcall |- *.
    unfold compareModels in Hanswer.
    destruct (compare_results cfg worlds schedule _) as [[results|e]|] eqn:Hres;
      try discriminate.
    injection Hanswer as <-.
    destruct (compare_results_in_request_order cfg message max_tokens worlds schedule
                models results Hres) as [Hlen Hentries].
    destruct (Hentries j model Hj) as [outcome [Hout Hentry]].
    rewrite Hcall in Hout. injection Hout as <-.
    assert (Hresult : comparison_entry model (Fulfilled response) = result).
    { subst result reply. simpl. unfold succeeded_entry. now rewrite Hmsg, Hu. }
    rewrite Hresult in Hentry.
    exists (take j results), (drop (S j) results). split.
    + rewrite length_take. apply lookup_lt_Some in Hentry. lia.
    + rewrite <- (take_drop_middle results j result Hentry) at 1.
      rewrite comparison_report_middle. unfold block in Hblock. now rewrite Hblock.
Qed.

Lemma C5_witness :
  format_result
    (Succeeded (lit "demo/echo") (Some (lit "42")) (Some (replicate 201 97%N))
       {| prompt_tokens := 1; completion_tokens := 1; total_tokens := 2 |})
  = block_with_reasoning (lit "demo/echo") (replicate 200 97%N ++ lit "...")
      (Some (lit "42"))
      {| prompt_tokens := 1; completion_tokens := 1; total_tokens := 2 |}.
Proof.
  refine (proj2 (proj1 (C5_reasoning_truncated_at_200 (reasoning_of_length 201)
            (lit "demo/echo") (replicate 201 97%N)
            {| prompt_tokens := 1; completion_tokens := 1; total_tokens := 2 |}
            _) _)).
  - reflexivity.
  - vm_compute. lia.
Defined.

(** C10. A [compare_models] call whose [models] list is empty passes the
    schema, and the comparison then completes at once, with no remote
    call and no error: its report is the header with a count of 0 and an
    empty body, no per-model block. *)
Theorem C10_empty_models_list (cfg : Config)
    (worlds : nat -> Oracle HttpRequest AxiosResponse) (schedule : list nat)
    (message : jsstring) (max_tokens : Q) :
  CompareModelsSchema_parse
    (Some (JObject [ (lit "models", JArray []); (lit "message", JString message) ]))
  = Some {| CompareModels.models := [];
            CompareModels.message := message;
            CompareModels.max_tokens := 500 |}
  /\ let params :=
       {| CompareModels.models := [];
          CompareModels.message := message;
          CompareModels.max_tokens := max_tokens |} in
     compareModels cfg worlds schedule params
     = Some (Fulfilled (text_result (lit "Comparison of 0 models:" ++ nl ++ nl)))
     /\ compare_results cfg worlds schedule params = Some (Fulfilled [])
     /\ compare_traces cfg worlds schedule params = [].
Proof.
  split; [reflexivity|]. intros params.
  unfold compareModels, compare_results, compare_traces.
  rewrite run_schedule_no_tasks by reflexivity.
  repeat split.
Qed.

(* ===================================================================== *)
(** * Further properties                                                  *)
(* ===================================================================== *)

(** ** Resilient Invoker: every run *)

Lemma delays_app {Op} (tr1 tr2 : list (Event Op)) :
  delays (tr1 ++ tr2) = delays tr1 ++ delays tr2.
Proof. unfold delays. apply omap_app. Qed.

Lemma calls_of_app {Op} (tr1 tr2 : list (Event Op)) :
  calls_of (tr1 ++ tr2) = calls_of tr1 ++ calls_of tr2.
Proof. unfold calls_of. apply omap_app. Qed.

Lemma logs_of_app {Op} (tr1 tr2 : list (Event Op)) :
  logs_of (tr1 ++ tr2) = logs_of tr1 ++ logs_of tr2.
Proof. unfold logs_of. apply omap_app. Qed.

Lemma attempts_calls_of {Op} (tr : list (Event Op)) :
  attempts tr = length (calls_of tr).
Proof.
  unfold attempts, calls_of. induction tr as [|ev tr IH]; [reflexivity|].
  rewrite filter_cons. destruct ev; simpl; [f_equal| |]; exact IH.
Qed.

Section RetryRunFacts.
Context {Op T : Type}.
Variable world : Oracle Op T.
Variable operation : Op.
Variable maxRetries : Z.
Variable baseDelay : Q.

Local Abbreviation loop := (retry_loop (T := T) operation maxRetries baseDelay).
Local Abbreviation passes := (passes_from maxRetries).
Local Abbreviation retried := (retried_passes world operation maxRetries baseDelay).

Lemma retried_passes_cons (n count : nat) (error : Thrown) :
  outcomes world n operation = Rejected error ->
  retried n (S count)
  = retried_pass world operation maxRetries baseDelay n n error ++ retried (S n) count.
Proof.
  intros Hout. unfold retried_passes. simpl. now rewrite Hout.
Qed.

(** The shape of every run of the loop entered at attempt [n]: some
    attempt [m] ends it, every attempt before [m] was rejected with a
    retryable error and followed by its delay, and the loop settles as
    attempt [m] did. *)
Lemma retry_run_shape (k : nat) :
  forall (n : nat) (tr : list (Event Op)),
    k = passes (Z.of_nat n) -> (0 < k)%nat ->
    exists m,
      (n <= m)%nat /\ Z.of_nat m <= maxRetries
      /\ finish world (loop k (Z.of_nat n)) n n tr
         = {| code := match outcomes world m operation with
                      | Fulfilled value => Return value
                      | Rejected error => Throw error
                      end;
              calls := S m; draws := m;
              trace := tr ++ retried n (m - n) ++ [Called operation] |}
      /\ (forall i, (n <= i < m)%nat ->
            exists error, outcomes world i operation = Rejected error
                          /\ isRetryableError error = true)
      /\ (forall error, outcomes world m operation = Rejected error ->
            isRetryableError error = true -> Z.of_nat m = maxRetries).
Proof.
  induction k as [|k IH]; intros n tr Hk Hpos; [lia|].
  assert (Hle : Z.of_nat n <= maxRetries) by (unfold passes_from in Hk; lia).
  rewrite Hk.
  destruct (outcomes world n operation) as [value|error] eqn:Hout.
  - exists n. rewrite (retry_pass_fulfilled world operation maxRetries baseDelay
                         n n tr value Hle Hout).
    rewrite Hout, Nat.sub_diag. repeat split; try lia.
    intros error Herr. congruence.
  - destruct (isRetryableError error) eqn:Hretry;
      [destruct (Z_lt_dec (Z.of_nat n) maxRetries) as [Hlt|Hge]|].
    + rewrite (retry_pass_retried world operation maxRetries baseDelay
                 n n tr error Hlt Hout Hretry).
      destruct (IH (S n)
                  (tr ++ retried_pass world operation maxRetries baseDelay n n error))
        as (m & Hnm & Hm & Hrun & Hbefore & Hlast).
      * unfold passes_from in *. lia.
      * unfold passes_from in *. lia.
      * exists m. split; [lia|]. split; [exact Hm|].
        replace (passes (Z.of_nat (S n))) with k by (unfold passes_from in *; lia).
        rewrite Hrun. split; [|split].
        -- f_equal. replace (m - n)%nat with (S (m - S n)) by lia.
           rewrite (retried_passes_cons n (m - S n) error Hout).
           now rewrite <- !app_assoc.
        -- intros i Hi. destruct (decide (i = n)) as [->|Hne]; [eauto|].
           apply Hbefore. lia.
        -- exact Hlast.
    + exists n.
      rewrite (retry_pass_thrown world operation maxRetries baseDelay
                 n n tr error Hle Hout) by (right; lia).
      rewrite Hout, Nat.sub_diag. repeat split; lia.
    + exists n.
      rewrite (retry_pass_thrown world operation maxRetries baseDelay
                 n n tr error Hle Hout) by now left.
      rewrite Hout, Nat.sub_diag. repeat split; try lia.
      intros error' Herr Hretry'. congruence.
Qed.

(** Passes that were all rejected: one call and one delay each. *)
Lemma retried_passes_rejected (count : nat) :
  forall n,
    (forall i, (n <= i < n + count)%nat ->
       exists error, outcomes world i operation = Rejected error) ->
    calls_of (retried n count) = replicate count operation
    /\ delays (retried n count)
       = map (fun i => backoff_delay world baseDelay i i) (seq n count)
    /\ length (logs_of (retried n count)) = count.
Proof.
  induction count as [|count IH]; intros n Hall; [repeat split|].
  destruct (Hall n) as [error Hout]; [lia|].
  rewrite (retried_passes_cons n count error Hout).
  destruct (IH (S n)) as (Hc & Hd & Hl); [intros i Hi; apply Hall; lia|].
  rewrite calls_of_app, delays_app, logs_of_app, Hc, Hd, length_app, Hl.
  repeat split.
Qed.

(** The run from attempt 0, when the loop runs at all. *)
Lemma retry_exec_shape :
  0 <= maxRetries ->
  exists m,
    Z.of_nat m <= maxRetries
    /\ exec world (retryWithBackoff operation maxRetries baseDelay)
       = {| code := match outcomes world m operation with
                    | Fulfilled value => Return value
                    | Rejected error => Throw error
                    end;
            calls := S m; draws := m;
            trace := retried 0 m ++ [Called operation] |}
    /\ (forall i, (i < m)%nat ->
          exists error, outcomes world i operation = Rejected error
                        /\ isRetryableError error = true)
    /\ (forall error, outcomes world m operation = Rejected error ->
          isRetryableError error = true -> Z.of_nat m = maxRetries).
Proof.
  intros Hmax. rewrite exec_retryWithBackoff.
  destruct (retry_run_shape (passes (Z.of_nat 0)) 0 [] eq_refl)
    as (m & _ & Hm & Hrun & Hbefore & Hlast).
  - unfold passes_from. simpl. lia.
  - exists m. split; [exact Hm|]. rewrite Hrun, Nat.sub_0_r.
    repeat split; [|exact Hlast].
    intros i Hi. apply Hbefore. lia.
Qed.
End RetryRunFacts.

Section RetryRunSummary.
Context {Op T : Type}.
Variable world : Oracle Op T.
Variable operation : Op.
Variable maxRetries : Z.
Variable baseDelay : Q.

(** Everything that is observed of a run of the invoker, in terms of the
    number [m] of its last attempt. *)
Lemma retry_exec_summary :
  0 <= maxRetries ->
  let t := exec world (retryWithBackoff operation maxRetries baseDelay) in
  exists m,
    Z.of_nat m <= maxRetries
    /\ settlement t = Some (outcomes world m operation)
    /\ calls t = S m
    /\ draws t = m
    /\ attempts (trace t) = S m
    /\ calls_of (trace t) = replicate (S m) operation
    /\ delays (trace t) = map (fun i => backoff_delay world baseDelay i i) (seq 0 m)
    /\ length (logs_of (trace t)) = m
    /\ (forall i, (i < m)%nat ->
          exists error, outcomes world i operation = Rejected error
                        /\ isRetryableError error = true)
    /\ (forall error, outcomes world m operation = Rejected error ->
          isRetryableError error = true -> Z.of_nat m = maxRetries).
Proof.
  intros Hmax t.
  destruct (retry_exec_shape world operation maxRetries baseDelay Hmax)
    as (m & Hm & Hrun & Hbefore & Hlast).
  destruct (retried_passes_rejected world operation maxRetries baseDelay m 0)
    as (Hc & Hd & Hl).
  { intros i Hi. destruct (Hbefore i) as [error [Hout _]]; [lia | eauto]. }
  exists m. subst t. rewrite Hrun. simpl.
  split; [exact Hm|]. split.
  { unfold settlement. simpl. now destruct (outcomes world m operation). }
  split; [reflexivity|]. split; [reflexivity|].
  assert (Hcalls : calls_of
            (retried_passes world operation maxRetries baseDelay 0 m
               ++ [Called operation]) = replicate (S m) operation).
  { now rewrite calls_of_app, Hc, replicate_S_end. }
  split.
  { now rewrite attempts_calls_of, Hcalls, length_replicate. }
  split; [exact Hcalls|]. split.
  { rewrite delays_app, Hd. apply app_nil_r. }
  split.
  { rewrite logs_of_app, length_app, Hl. simpl. lia. }
  split; [exact Hbefore | exact Hlast].
Qed.
End RetryRunSummary.

(** X1. An operation that fulfils on its first attempt has its value
    returned after that single call: nothing is logged, no random number
    is drawn and no timer is set. *)
Theorem retry_first_attempt_success {Op T : Type} (world : Oracle Op T)
    (operation : Op) (maxRetries : Z) (baseDelay : Q) (value : T) :
  0 <= maxRetries ->
  outcomes world 0%nat operation = Fulfilled value ->
  exec world (retryWithBackoff operation maxRetries baseDelay)
  = {| code := Return value; calls := 1; draws := 0; trace := [Called operation] |}.
Proof.
  intros Hmax Hout. rewrite exec_retryWithBackoff.
  now rewrite (retry_pass_fulfilled world operation maxRetries baseDelay 0 0 [] value).
Qed.

Lemma retry_first_attempt_success_witness :
  exec fulfils_at_once (retryWithBackoff tt 3 1000)
  = {| code := Return 7%nat; calls := 1; draws := 0; trace := [Called tt] |}.
Proof.
  apply (retry_first_attempt_success fulfils_at_once tt 3 1000 7%nat).
  - lia.
  - reflexivity.
Defined.

(** X2. With a negative [maxRetries] the loop body never runs: the
    operation is not invoked at all and the invoker rejects with the
    error "Max retries exceeded". *)
Theorem retry_negative_maxRetries_never_calls {Op T : Type} (world : Oracle Op T)
    (operation : Op) (maxRetries : Z) (baseDelay : Q) :
  maxRetries < 0 ->
  exec world (retryWithBackoff (T := T) operation maxRetries baseDelay)
  = {| code := Throw (new_Error (lit "Max retries exceeded"));
       calls := 0; draws := 0; trace := [] |}.
Proof.
  intros Hneg. unfold exec, retryWithBackoff.
  replace (passes_from maxRetries 0) with 0%nat by (unfold passes_from; lia).
  reflexivity.
Qed.

Lemma retry_negative_maxRetries_never_calls_witness :
  exec fulfils_at_once (retryWithBackoff tt (-1) 1000)
  = {| code := Throw (new_Error (lit "Max retries exceeded"));
       calls := 0; draws := 0; trace := [] |}.
Proof.
  apply (retry_negative_maxRetries_never_calls fulfils_at_once tt (-1) 1000). lia.
Defined.

(** X3. Whatever the operation does, the invoker makes at least one and
    at most [maxRetries + 1] attempts; between two attempts it sleeps
    once, so there is one delay less than attempts, and each delay has
    its own random draw and its own line on [console.error]. *)
Theorem retry_attempts_bounded {Op T : Type} (world : Oracle Op T)
    (operation : Op) (maxRetries : Z) (baseDelay : Q) :
  0 <= maxRetries ->
  let t := exec world (retryWithBackoff operation maxRetries baseDelay) in
  (1 <= attempts (trace t))%nat
  /\ Z.of_nat (attempts (trace t)) <= maxRetries + 1
  /\ calls t = attempts (trace t)
  /\ length (delays (trace t)) = (attempts (trace t) - 1)%nat
  /\ draws t = length (delays (trace t))
  /\ length (logs_of (trace t)) = length (delays (trace t)).
Proof.
  intros Hmax t.
  destruct (retry_exec_summary world operation maxRetries baseDelay Hmax)
    as (m & Hm & _ & Hcalls & Hdraws & Hatt & _ & Hdel & Hlog & _).
  fold t in Hcalls, Hdraws, Hatt, Hdel, Hlog.
  rewrite Hatt, Hcalls, Hdraws, Hdel, Hlog, length_map, length_seq.
  repeat split; lia.
Qed.

Lemma retry_attempts_bounded_witness :
  let t := exec fails_twice (retryWithBackoff tt 3 1000) in
  (1 <= attempts (trace t))%nat
  /\ Z.of_nat (attempts (trace t)) <= 3 + 1
  /\ calls t = attempts (trace t)
  /\ length (delays (trace t)) = (attempts (trace t) - 1)%nat
  /\ draws t = length (delays (trace t))
  /\ length (logs_of (trace t)) = length (delays (trace t)).
Proof.
  apply (retry_attempts_bounded fails_twice tt 3 1000). lia.
Defined.

(** X4. The invoker settles exactly as its last attempt did: it returns
    that attempt's value or rethrows that attempt's error, unchanged.
    Every earlier attempt was rejected with status 429 or 402. *)
Theorem retry_settles_as_last_attempt {Op T : Type} (world : Oracle Op T)
    (operation : Op) (maxRetries : Z) (baseDelay : Q) :
  0 <= maxRetries ->
  let t := exec world (retryWithBackoff operation maxRetries baseDelay) in
  let last := (attempts (trace t) - 1)%nat in
  settlement t = Some (outcomes world last operation)
  /\ forall i, (i < last)%nat ->
       exists error,
         outcomes world i operation = Rejected error
         /\ (response_status error = Some 429 \/ response_status error = Some 402).
Proof.
  intros Hmax t last.
  destruct (retry_exec_summary world operation maxRetries baseDelay Hmax)
    as (m & _ & Hset & _ & _ & Hatt & _ & _ & _ & Hbefore & _).
  fold t in Hset, Hatt. subst last. rewrite Hatt.
  replace (S m - 1)%nat with m by lia. split; [exact Hset|].
  intros i Hi. destruct (Hbefore i Hi) as [error [Hout Hretry]].
  exists error. split; [exact Hout|]. now apply isRetryableError_spec.
Qed.

Lemma retry_settles_as_last_attempt_witness :
  let t := exec fails_twice (retryWithBackoff tt 3 1000) in
  let last := (attempts (trace t) - 1)%nat in
  settlement t = Some (outcomes fails_twice last tt)
  /\ forall i, (i < last)%nat ->
       exists error,
         outcomes fails_twice i tt = Rejected error
         /\ (response_status error = Some 429 \/ response_status error = Some 402).
Proof.
  apply (retry_settles_as_last_attempt fails_twice tt 3 1000). lia.
Defined.

(** X5. A 429 or 402 error reaches the caller only when the retries are
    exhausted: if the invoker rejects with such an error, it has made
    all [maxRetries + 1] attempts. *)
Theorem retry_transient_error_means_exhausted {Op T : Type} (world : Oracle Op T)
    (operation : Op) (maxRetries : Z) (baseDelay : Q) (error : Thrown) :
  0 <= maxRetries ->
  let t := exec world (retryWithBackoff operation maxRetries baseDelay) in
  settlement t = Some (Rejected error) ->
  response_status error = Some 429 \/ response_status error = Some 402 ->
  Z.of_nat (attempts (trace t)) = maxRetries + 1.
Proof.
  intros Hmax t Hset Hstatus.
  destruct (retry_exec_summary world operation maxRetries baseDelay Hmax)
    as (m & _ & Hset' & _ & _ & Hatt & _ & _ & _ & _ & Hlast).
  fold t in Hset', Hatt. rewrite Hatt.
  rewrite Hset in Hset'. injection Hset' as Hout.
  apply isRetryableError_spec in Hstatus.
  rewrite (Nat2Z.inj_succ m), <- (Hlast error (eq_sym Hout) Hstatus). lia.
Qed.

Lemma retry_transient_error_means_exhausted_witness :
  Z.of_nat (attempts (trace (exec (always_rejects 402) (retryWithBackoff tt 3 1000))))
  = 3 + 1.
Proof.
  apply (retry_transient_error_means_exhausted (always_rejects 402) tt 3 1000
           (error_with_status 402)).
  - lia.
  - reflexivity.
  - now right.
Defined.

(** X6. Every attempt of a run invokes the operation it was given, and
    no other. *)
Theorem retry_calls_the_same_operation {Op T : Type} (world : Oracle Op T)
    (operation : Op) (maxRetries : Z) (baseDelay : Q) :
  0 <= maxRetries ->
  let t := exec world (retryWithBackoff operation maxRetries baseDelay) in
  calls_of (trace t) = replicate (attempts (trace t)) operation.
Proof.
  intros Hmax t.
  destruct (retry_exec_summary world operation maxRetries baseDelay Hmax)
    as (m & _ & _ & _ & _ & Hatt & Hcalls & _).
  fold t in Hatt, Hcalls. now rewrite Hatt, Hcalls.
Qed.

Lemma retry_calls_the_same_operation_witness :
  let t := exec fails_twice (retryWithBackoff tt 3 1000) in
  calls_of (trace t) = replicate (attempts (trace t)) tt.
Proof.
  apply (retry_calls_the_same_operation fails_twice tt 3 1000). lia.
Defined.

(** ** Response Normalizer: absent and empty *)

Lemma text_payloads_app (parts1 parts2 : list ContentPart) :
  text_payloads (parts1 ++ parts2) = text_payloads parts1 ++ text_payloads parts2.
Proof.
  induction parts1 as [|p rest IH]; [reflexivity|]. simpl.
  destruct (part_text p) as [payload|]; [|exact IH].
  destruct (jsstring_eqb (part_type p) (lit "text")); [|exact IH].
  now rewrite IH, app_assoc.
Qed.

Lemma extract_parts_content (message : OpenRouterMessage) (parts : list ContentPart) :
  content message = ContentParts parts ->
  ex_content (extractMessageContent message) = or_null (text_payloads parts).
Proof.
  intros Hc. unfold extractMessageContent. rewrite Hc. simpl.
  now rewrite text_parts_joined.
Qed.

(** X8. Absence and emptiness are kept apart.  The normalised content is
    the empty string only when the message content is the empty plain
    text; the normalised reasoning is exactly the [reasoning_content]
    when that is a non-empty string, and absent otherwise, so it is
    never the empty string. *)
Theorem normalizer_absent_and_empty (message : OpenRouterMessage) :
  (ex_content (extractMessageContent message) = Some []
   <-> content message = ContentText [])
  /\ (forall r, ex_reasoning (extractMessageContent message) = Some r
                <-> reasoning_content message = Some r /\ r <> []).
Proof.
  split.
  - split.
    + destruct (content message) as [| |s|parts|] eqn:Hc;
        try (unfold extractMessageContent; rewrite Hc; simpl; discriminate).
      * unfold extractMessageContent. rewrite Hc. simpl. now intros [= ->].
      * rewrite (extract_parts_content message parts Hc).
        intros Hnull. now apply or_null_not_empty in Hnull.
    + intros Hc. unfold extractMessageContent. now rewrite Hc.
  - intros r. unfold extractMessageContent. simpl.
    destruct (reasoning_content message) as [[|c rest]|]; simpl; split.
    + discriminate.
    + intros [[= <-] Hne]. congruence.
    + intros [= <-]. split; [reflexivity | discriminate].
    + now intros [[= <-] _].
    + discriminate.
    + now intros [? _].
Qed.

(** X9. A part that is not text-kind, or that has no text payload, has
    no influence on the normalised content: dropping it from the
    sequence of parts, wherever it stands, changes nothing. *)
Theorem normalizer_ignores_other_parts (before after : list ContentPart)
    (part : ContentPart) :
  is_text_part part = false ->
  ex_content (extractMessageContent (message_of_parts (before ++ part :: after)))
  = ex_content (extractMessageContent (message_of_parts (before ++ after))).
Proof.
  intros Hpart.
  rewrite (extract_parts_content (message_of_parts (before ++ part :: after))
             (before ++ part :: after) eq_refl).
  rewrite (extract_parts_content (message_of_parts (before ++ after))
             (before ++ after) eq_refl).
  rewrite !text_payloads_app. simpl.
  unfold is_text_part in Hpart.
  destruct (part_text part) as [payload|]; [|reflexivity].
  destruct (jsstring_eqb (part_type part) (lit "text")); [|reflexivity].
  simpl in Hpart. discriminate.
Qed.

Lemma normalizer_ignores_other_parts_witness :
  ex_content (extractMessageContent
                (message_of_parts ([text_part "A"] ++ image_part :: [text_part "B"])))
  = ex_content (extractMessageContent
                  (message_of_parts ([text_part "A"] ++ [text_part "B"]))).
Proof.
  apply (normalizer_ignores_other_parts [text_part "A"] [text_part "B"] image_part).
  reflexivity.
Defined.

(** ** Single-Model Chat Orchestrator: the whole call *)

Section BindReturn.
Context {Op T A B : Type}.
Variable world : Oracle Op T.
Variable on_value : A -> B.

(** Code that awaits [p] outside any [try] and then returns does what
    [p] does; what [p] throws, it throws. *)
Lemma finish_bind_return (p : Prog Op T A) (c d : nat) (tr : list (Event Op)) :
  exists outcome,
    settlement (finish world p c d tr) = Some outcome
    /\ finish world (bind p (fun value => Return (on_value value))) c d tr
       = {| code := match outcome with
                    | Fulfilled value => Return (on_value value)
                    | Rejected error => Throw error
                    end;
            calls := calls (finish world p c d tr);
            draws := draws (finish world p c d tr);
            trace := trace (finish world p c d tr) |}.
Proof.
  revert c d tr. induction p as [r|e|op k IH|k IH|line k IH|delay k IH];
    intros c d tr; simpl.
  - exists (Fulfilled r). split; reflexivity.
  - exists (Rejected e). split; reflexivity.
  - apply IH.
  - apply IH.
  - apply IH.
  - apply IH.
Qed.
End BindReturn.

Lemma exec_chatWithModel (cfg : Config) (world : Oracle HttpRequest AxiosResponse)
    (params : ChatRequest.t) :
  exists outcome,
    settlement (exec world (chat_call cfg params)) = Some outcome
    /\ exec world (chatWithModel cfg params)
       = {| code := match outcome with
                    | Fulfilled response => Return (chat_answer params response)
                    | Rejected error => Throw error
                    end;
            calls := calls (exec world (chat_call cfg params));
            draws := draws (exec world (chat_call cfg params));
            trace := trace (exec world (chat_call cfg params)) |}.
Proof.
  apply (finish_bind_return world (chat_answer params) (chat_call cfg params) 0 0 []).
Qed.

(** X10. [chatWithModel] catches nothing and calls nothing of its own:
    its remote calls are exactly those of its one retried call; when
    that call fails, [chatWithModel] rejects with that very error; and
    when [chatWithModel] answers, the call has fulfilled and the answer
    is the report on the response's first message and usage. *)
Theorem chatWithModel_catches_nothing (cfg : Config)
    (world : Oracle HttpRequest AxiosResponse) (params : ChatRequest.t) :
  let t := exec world (chatWithModel cfg params) in
  let c := exec world (chat_call cfg params) in
  trace t = trace c
  /\ (forall error, settlement c = Some (Rejected error) ->
                    settlement t = Some (Rejected error))
  /\ (forall answer, settlement t = Some (Fulfilled answer) ->
        exists response,
          settlement c = Some (Fulfilled response)
          /\ answer = chat_answer params response).
Proof.
  intros t c. subst t c.
  destruct (exec_chatWithModel cfg world params) as [outcome [Hset Hexec]].
  rewrite Hexec, Hset. unfold settlement. simpl.
  split; [reflexivity|]. split.
  - intros error [= ->]. reflexivity.
  - intros answer Hanswer. destruct outcome as [response|error]; [|discriminate].
    exists response. split; [reflexivity|]. now injection Hanswer as <-.
Qed.

(** X11. [chatWithModel] makes at least one and at most four remote
    calls, and every one of them posts the same request: the same URL
    and headers, the same model, conversation, [max_tokens] and
    [temperature]. *)
Theorem chatWithModel_posts_one_request (cfg : Config)
    (world : Oracle HttpRequest AxiosResponse) (params : ChatRequest.t) :
  let t := exec world (chatWithModel cfg params) in
  (1 <= attempts (trace t) <= 4)%nat
  /\ calls_of (trace t) = replicate (attempts (trace t)) (chat_request cfg params)
  /\ url (chat_request cfg params) = baseURL cfg ++ lit "/chat/completions"
  /\ request_headers (chat_request cfg params) = headers cfg.
Proof.
  intros t. subst t.
  destruct (exec_chatWithModel cfg world params) as [outcome [_ Hexec]].
  rewrite Hexec. simpl trace.
  assert (Hmax : 0 <= default_maxRetries) by (unfold default_maxRetries; lia).
  destruct (retry_exec_summary world (chat_request cfg params)
              default_maxRetries default_baseDelay Hmax)
    as (m & Hm & _ & _ & _ & Hatt & Hcalls & _).
  fold (chat_call cfg params) in Hatt, Hcalls.
  rewrite Hatt, Hcalls. unfold default_maxRetries in Hm.
  repeat split; lia.
Qed.

Lemma occurs_in_middle (before needle after : jsstring) :
  occurs_in needle (before ++ needle ++ after).
Proof. now exists before, after. Qed.

(** X12. The report of [chatWithModel] opens with the model, shows the
    response text, or the marker "(no content returned)" when the reply
    has no content, shows the reasoning in full when there is one, and
    closes with the total token count. *)
Theorem chat_report_contents (model : jsstring) (reply : Extracted) (u : Usage) :
  let report := chat_report model reply u in
  (exists rest, report = lit "**Model:** " ++ model ++ nl ++ rest)
  /\ (forall answer, ex_content reply = Some answer ->
        occurs_in (lit "**Response:** " ++ answer ++ nl) report)
  /\ (ex_content reply = None ->
        occurs_in (lit "**Response:** " ++ lit "(no content returned)" ++ nl) report)
  /\ (forall r, ex_reasoning reply = Some r -> r <> [] ->
        occurs_in (lit "**Reasoning:**" ++ nl ++ r ++ nl) report)
  /\ (exists before,
        report = before ++ lit "- Total tokens: " ++ number_to_string (total_tokens u)).
Proof.
  intros report. subst report. unfold chat_report.
  set (usage_block := lit "**Usage:**" ++ nl
    ++ lit "- Prompt tokens: " ++ number_to_string (prompt_tokens u) ++ nl
    ++ lit "- Completion tokens: " ++ number_to_string (completion_tokens u) ++ nl
    ++ lit "- Total tokens: " ++ number_to_string (total_tokens u)).
  set (opening := match ex_reasoning reply with
                  | Some reasoning =>
                      if truthy (ex_reasoning reply)
                      then (lit "**Model:** " ++ model ++ nl) ++ lit "**Reasoning:**"
                             ++ nl ++ reasoning ++ nl ++ nl
                      else lit "**Model:** " ++ model ++ nl
                  | None => lit "**Model:** " ++ model ++ nl
                  end).
  repeat split.
  - subst opening. destruct (ex_reasoning reply) as [[|c r]|]; simpl truthy; cbv iota;
      rewrite <- ?app_assoc; eauto.
  - intros answer ->. simpl default.
    exists opening, (nl ++ usage_block). now rewrite <- !app_assoc.
  - intros ->. simpl default.
    exists opening, (nl ++ usage_block). now rewrite <- !app_assoc.
  - intros r Hr Hne. subst opening. rewrite Hr.
    destruct r as [|c r]; [congruence|]. simpl truthy. cbv iota.
    exists (lit "**Model:** " ++ model ++ nl),
      (nl ++ lit "**Response:** "
          ++ default (lit "(no content returned)") (ex_content reply) ++ nl ++ nl
          ++ usage_block).
    now rewrite <- !app_assoc.
  - subst usage_block.
    exists ((opening ++ lit "**Response:** "
               ++ default (lit "(no content returned)") (ex_content reply) ++ nl ++ nl)
            ++ lit "**Usage:**" ++ nl
            ++ lit "- Prompt tokens: " ++ number_to_string (prompt_tokens u) ++ nl
            ++ lit "- Completion tokens: " ++ number_to_string (completion_tokens u)
            ++ nl).
    now rewrite <- !app_assoc.
Qed.

Lemma chat_report_contents_witness :
  occurs_in (lit "**Response:** " ++ lit "hello" ++ nl)
    (chat_report (lit "demo/echo")
       (extractMessageContent (choices_0_message (plain_reply "hello")))
       (usage (plain_reply "hello"))).
Proof.
  refine (proj1 (proj2 (chat_report_contents (lit "demo/echo")
    (extractMessageContent (choices_0_message (plain_reply "hello")))
    (usage (plain_reply "hello")))) (lit "hello") _).
  reflexivity.
Defined.

(** ** The argument schemas *)

Lemma mapM_z_string_encode (l : list jsstring) :
  mapM z_string (map JString l) = Some l.
Proof.
  apply mapM_Some. induction l as [|s l IH]; constructor; [reflexivity | exact IH].
Qed.

Lemma mapM_z_string_decode (items : list Json) (l : list jsstring) :
  mapM z_string items = Some l -> items = map JString l.
Proof.
  intros H. apply mapM_Some in H.
  induction H as [|v s items l Hv _ IH]; [reflexivity|].
  simpl. rewrite <- IH. f_equal.
  destruct v; simpl in Hv; try discriminate. now injection Hv as ->.
Qed.

(** X13. [CompareModelsSchema] accepts exactly the objects whose
    [models] is an array of strings (of any length), whose [message] is
    a string and whose [max_tokens] is missing or a number; the parsed
    request has those models and that message, and [max_tokens] is the
    number given, or 500 when it is missing.  Other keys are ignored.
    In particular the object that spells out a request parses back to
    that request. *)
Theorem CompareModelsSchema_accepts_exactly (args : option Json)
    (params : CompareModels.t) :
  (CompareModelsSchema_parse args = Some params
   <-> exists fields,
         args = Some (JObject fields)
         /\ get_field (lit "models") fields
            = Some (JArray (map JString (CompareModels.models params)))
         /\ get_field (lit "message") fields
            = Some (JString (CompareModels.message params))
         /\ (get_field (lit "max_tokens") fields = None
             /\ CompareModels.max_tokens params = 500%Q
             \/ get_field (lit "max_tokens") fields
                = Some (JNumber (CompareModels.max_tokens params))))
  /\ CompareModelsSchema_parse (Some (compare_args params)) = Some params.
Proof.
  split; [split|].
  - intros H. destruct args as [[| | | | |fields]|]; try discriminate.
    exists fields. split; [reflexivity|]. unfold CompareModelsSchema_parse in H.
    destruct (get_field (lit "models") fields) as [[| | | |items|]|];
      try discriminate.
    simpl in H. destruct (mapM z_string items) as [models|] eqn:Hitems;
      [|discriminate].
    apply mapM_z_string_decode in Hitems. subst items. simpl in H.
    destruct (get_field (lit "message") fields) as [[| | |message| |]|];
      try discriminate.
    simpl in H.
    destruct (get_field (lit "max_tokens") fields) as [[| |q| | |]|];
      try discriminate; simpl in H; injection H as <-; simpl; auto.
  - intros (fields & -> & Hmodels & Hmessage & Hmax).
    unfold CompareModelsSchema_parse. rewrite Hmodels, Hmessage. simpl.
    rewrite mapM_z_string_encode. simpl.
    destruct params as [models message max_tokens]. simpl in *.
    destruct Hmax as [[-> ->] | ->]; reflexivity.
  - destruct params as [models message max_tokens].
    unfold CompareModelsSchema_parse, compare_args. simpl.
    now rewrite mapM_z_string_encode.
Qed.

(** X14. [CompareModelsSchema] rejects, before any remote call, a call
    without arguments, arguments without [models] or without [message],
    a [models] list with an element that is not a string, and a
    [max_tokens] that is [null]. *)
Theorem CompareModelsSchema_rejections (models : list jsstring) (message : jsstring)
    (n : Q) :
  CompareModelsSchema_parse None = None
  /\ CompareModelsSchema_parse (Some (JArray [])) = None
  /\ CompareModelsSchema_parse (Some (JObject [ (lit "message", JString message) ])) = None
  /\ CompareModelsSchema_parse
       (Some (JObject [ (lit "models", JArray (map JString models)) ])) = None
  /\ CompareModelsSchema_parse
       (Some (JObject [ (lit "models", JArray (map JString models ++ [JNumber n]));
                        (lit "message", JString message) ])) = None
  /\ CompareModelsSchema_parse
       (Some (JObject [ (lit "models", JArray (map JString models));
                        (lit "message", JString message);
                        (lit "max_tokens", JNull) ])) = None.
Proof.
  repeat split.
  - unfold CompareModelsSchema_parse. simpl. now rewrite mapM_z_string_encode.
  - unfold CompareModelsSchema_parse. simpl.
    destruct (mapM z_string (map JString models ++ [JNumber n])) as [l|] eqn:H;
      [|reflexivity].
    apply mapM_z_string_decode in H.
    apply (f_equal (fun l => last l)) in H.
    rewrite last_snoc in H. destruct l as [|s l] using rev_ind.
    + discriminate.
    + rewrite map_app in H. simpl in H. rewrite last_snoc in H. discriminate.
  - unfold CompareModelsSchema_parse. simpl. now rewrite mapM_z_string_encode.
Qed.

(** X15. [ChatRequestSchema] fills in [max_tokens = 1000] and
    [temperature = 0.7] when they are missing and leaves the system
    prompt absent; it parses the object that spells out a request back
    to that request; it rejects a call without arguments, without
    [model], or with a [system_prompt] that is [null]. *)
Theorem ChatRequestSchema_defaults_and_rejections (params : ChatRequest.t)
    (model message : jsstring) :
  ChatRequestSchema_parse
    (Some (JObject [ (lit "model", JString model); (lit "message", JString message) ]))
  = Some {| ChatRequest.model := model; ChatRequest.message := message;
            ChatRequest.max_tokens := 1000; ChatRequest.temperature := 7 # 10;
            ChatRequest.system_prompt := None |}
  /\ ChatRequestSchema_parse (Some (chat_args params)) = Some params
  /\ ChatRequestSchema_parse None = None
  /\ ChatRequestSchema_parse (Some (JObject [ (lit "message", JString message) ])) = None
  /\ ChatRequestSchema_parse
       (Some (JObject [ (lit "model", JString model); (lit "message", JString message);
                        (lit "system_prompt", JNull) ])) = None.
Proof.
  repeat split.
  destruct params as [m msg mt temp [prompt|]]; reflexivity.
Qed.

(** X16. A [chat_with_model] call that names only the model and the
    message posts, after parsing, a request with the single user turn,
    [max_tokens] 1000 and [temperature] 0.7. *)
Theorem chat_with_model_default_request (cfg : Config) (model message : jsstring) :
  chat_request cfg <$>
    ChatRequestSchema_parse
      (Some (JObject [ (lit "model", JString model); (lit "message", JString message) ]))
  = Some (chat_completions cfg
            {| ChatBody.model := model;
               ChatBody.messages := [user_turn message];
               ChatBody.max_tokens := 1000;
               ChatBody.temperature := Some (7 # 10) |}).
Proof. reflexivity. Qed.

(** ** Tasks: what a run has done so far *)

Section RunPrefix.
Context {Op T R : Type}.
Variable world : Oracle Op T.

(** Running on only adds to the trace. *)
Lemma finish_trace_prefix (p : Prog Op T R) (c d : nat) (tr : list (Event Op)) :
  tr `prefix_of` trace (finish world p c d tr).
Proof.
  revert c d tr. induction p as [r|e|op k IH|k IH|line k IH|delay k IH];
    intros c d tr; simpl; try reflexivity.
  - eapply prefix_app_l, IH.
  - apply IH.
  - eapply prefix_app_l, IH.
  - eapply prefix_app_l, IH.
Qed.

(** At any moment, what a task has done is the beginning of what it
    does when run to its end. *)
Lemma trace_iter_step_prefix (n : nat) (t : Task Op T R) :
  trace (Nat.iter n (step world) t) `prefix_of` trace (resume world t).
Proof.
  rewrite <- (resume_iter_step world n t). apply finish_trace_prefix.
Qed.
End RunPrefix.

Lemma attempts_prefix {Op} (tr1 tr2 : list (Event Op)) :
  tr1 `prefix_of` tr2 -> (attempts tr1 <= attempts tr2)%nat.
Proof. intros [k ->]. rewrite attempts_app. lia. Qed.

Lemma calls_of_prefix {Op} (tr1 tr2 : list (Event Op)) :
  tr1 `prefix_of` tr2 -> calls_of tr1 `prefix_of` calls_of tr2.
Proof. intros [k ->]. rewrite calls_of_app. now exists (calls_of k). Qed.

Lemma calls_of_concat {A Op} (f : A -> list (Event Op)) (l : list A) (P : Op -> Prop) :
  Forall (fun x => Forall P (calls_of (f x))) l ->
  Forall P (calls_of (concat (map f l))).
Proof.
  induction 1 as [|x l Hx _ IH]; simpl; [constructor|].
  rewrite calls_of_app. now apply Forall_app.
Qed.

(** ** Multi-Model Comparison Orchestrator: any number of models *)

Section CompareMore.
Variable cfg : Config.
Variable worlds : nat -> Oracle HttpRequest AxiosResponse.

Local Abbreviation final schedule params :=
  (tasks (run_schedule worlds schedule (spawn_all worlds (compare_promises cfg params)))).

(** The slot of a model, after any schedule, has done the beginning of
    what the model's retried call does when run alone. *)
Lemma compare_slot_trace (schedule : list nat) (params : CompareModels.t)
    (j : nat) (t : Task HttpRequest AxiosResponse ComparisonResult) :
  final schedule params !! j = Some t ->
  exists model,
    CompareModels.models params !! j = Some model
    /\ trace t `prefix_of`
         trace (exec (worlds j)
                  (compare_call cfg (CompareModels.message params)
                     (CompareModels.max_tokens params) model)).
Proof.
  destruct params as [models message max_tokens]. intros Ht.
  rewrite compare_slot in Ht.
  destruct (models !! j) as [model|] eqn:Hj; [|discriminate].
  simpl in Ht. injection Ht as <-. exists model. split; [exact Hj|]. simpl.
  destruct (exec_compare_one cfg message max_tokens (worlds j) model)
    as [outcome [_ Hexec]].
  pose proof (trace_iter_step_prefix (worlds j) (turns_of j schedule)
                (spawn (worlds j) (compare_one cfg message max_tokens model))) as Hp.
  rewrite resume_spawn, Hexec in Hp. exact Hp.
Qed.

End CompareMore.

Lemma compare_call_summary (cfg : Config) (world : Oracle HttpRequest AxiosResponse)
    (message : jsstring) (max_tokens : Q) (model : jsstring) :
  let t := exec world (compare_call cfg message max_tokens model) in
  (attempts (trace t) <= 4)%nat
  /\ Forall (fun request => request = compare_request cfg message max_tokens model)
            (calls_of (trace t)).
Proof.
  intros t.
  assert (Hmax : 0 <= default_maxRetries) by (unfold default_maxRetries; lia).
  destruct (retry_exec_summary world (compare_request cfg message max_tokens model)
              default_maxRetries default_baseDelay Hmax)
    as (m & Hm & _ & _ & _ & Hatt & Hcalls & _).
  subst t.
  change (compare_call cfg message max_tokens model)
    with (retryWithBackoff (T := AxiosResponse)
            (compare_request cfg message max_tokens model)
            default_maxRetries default_baseDelay).
  rewrite Hatt, Hcalls. unfold default_maxRetries in Hm. split; [lia|].
  apply Forall_forall. intros request Hin.
  apply elem_of_replicate in Hin. tauto.
Qed.

Lemma fulfilment_settled {Op T R} (t : Task Op T R) (r : R) :
  fulfilment t = Some r -> is_Some (settlement t).
Proof.
  unfold fulfilment, settlement. destruct (code t); intros H; try discriminate. eauto.
Qed.

Lemma result_model_comparison_entry (model : jsstring) (outcome : Settled AxiosResponse) :
  result_model (comparison_entry model outcome) = model.
Proof. now destruct outcome. Qed.

(** X17. For any list of models, duplicates included, and any order of
    completion: when the comparison has its results, they are one entry
    per requested model, at the model's position and carrying its
    identifier, and each entry is the one of that model's own retried
    call, succeeded or failed. *)
Theorem compare_results_follow_the_request (cfg : Config)
    (worlds : nat -> Oracle HttpRequest AxiosResponse) (schedule : list nat)
    (params : CompareModels.t) (results : list ComparisonResult) :
  compare_results cfg worlds schedule params = Some (Fulfilled results) ->
  map result_model results = CompareModels.models params
  /\ forall j model, CompareModels.models params !! j = Some model ->
       exists outcome,
         settlement (exec (worlds j)
                       (compare_call cfg (CompareModels.message params)
                          (CompareModels.max_tokens params) model)) = Some outcome
         /\ results !! j = Some (comparison_entry model outcome).
Proof.
  destruct params as [models message max_tokens]. intros Hres.
  destruct (compare_results_in_request_order cfg message max_tokens worlds schedule
              models results Hres) as [Hlen Hentries].
  split; [|exact Hentries]. simpl.
  apply list_eq. intros j. rewrite list_lookup_fmap.
  destruct (models !! j) as [model|] eqn:Hj.
  - destruct (Hentries j model Hj) as [outcome [_ Hr]].
    rewrite Hr. simpl. now rewrite result_model_comparison_entry.
  - apply lookup_ge_None in Hj. rewrite lookup_ge_None_2 by lia. reflexivity.
Qed.

Lemma compare_results_follow_the_request_witness :
  map result_model
    [ succeeded_entry (lit "a/one") (plain_reply "alpha");
      Failed (lit "b/two") (lit "Request failed");
      succeeded_entry (lit "c/three") (plain_reply "gamma") ]
  = CompareModels.models demo_comparison.
Proof.
  refine (proj1 (compare_results_follow_the_request demo_config middle_fails
                   last_first demo_comparison _ _)).
  reflexivity.
Defined.

(** X18. The promises that [compareModels] hands to [Promise.all] never
    reject, whatever the calls do and in whatever order they settle:
    each per-model function catches what its call throws, so
    [Promise.all] is pending or fulfilled, never rejected. *)
Theorem compare_promises_never_reject (cfg : Config)
    (worlds : nat -> Oracle HttpRequest AxiosResponse) (schedule : list nat)
    (params : CompareModels.t) (error : Thrown) :
  compare_results cfg worlds schedule params <> Some (Rejected error)
  /\ first_rejection
       (run_schedule worlds schedule (spawn_all worlds (compare_promises cfg params)))
     = None
  /\ Forall (fun t => rejection t = None)
       (tasks (run_schedule worlds schedule
                 (spawn_all worlds (compare_promises cfg params)))).
Proof.
  destruct params as [models message max_tokens].
  assert (Hnone : first_rejection
            (run_schedule worlds schedule
               (spawn_all worlds
                  (compare_promises cfg
                     {| CompareModels.models := models;
                        CompareModels.message := message;
                        CompareModels.max_tokens := max_tokens |}))) = None).
  { pose proof (compare_results_unrejected cfg message max_tokens worlds schedule models)
      as H.
    unfold compare_results, promise_all in H.
    destruct (first_rejection _) as [e|]; [|reflexivity].
    destruct (mapM fulfilment _); discriminate. }
  split; [|split; [exact Hnone|]].
  - rewrite compare_results_unrejected. destruct (mapM fulfilment _); discriminate.
  - apply Forall_lookup_2. intros j t Ht. rewrite compare_slot in Ht.
    destruct (models !! j) as [model|]; [|discriminate].
    simpl in Ht. injection Ht as <-.
    apply (compare_task_after_turns cfg message max_tokens (worlds j) model).
Qed.

(** X19. The results do not depend on the order in which the calls
    settle: two schedules under which the comparison completes give the
    same results. *)
Theorem compare_results_schedule_independent (cfg : Config)
    (worlds : nat -> Oracle HttpRequest AxiosResponse) (schedule1 schedule2 : list nat)
    (params : CompareModels.t) (results1 results2 : list ComparisonResult) :
  compare_results cfg worlds schedule1 params = Some (Fulfilled results1) ->
  compare_results cfg worlds schedule2 params = Some (Fulfilled results2) ->
  results1 = results2.
Proof.
  destruct params as [models message max_tokens]. intros H1 H2.
  destruct (compare_results_in_request_order cfg message max_tokens worlds schedule1
              models results1 H1) as [Hlen1 He1].
  destruct (compare_results_in_request_order cfg message max_tokens worlds schedule2
              models results2 H2) as [Hlen2 He2].
  apply list_eq. intros j.
  destruct (models !! j) as [model|] eqn:Hj.
  - destruct (He1 j model Hj) as [o1 [Ho1 Hr1]].
    destruct (He2 j model Hj) as [o2 [Ho2 Hr2]].
    rewrite Hr1, Hr2. congruence.
  - apply lookup_ge_None in Hj. rewrite !lookup_ge_None_2 by lia. reflexivity.
Qed.

Lemma compare_results_schedule_independent_witness :
  [ succeeded_entry (lit "a/one") (plain_reply "alpha");
    Failed (lit "b/two") (lit "Request failed");
    succeeded_entry (lit "c/three") (plain_reply "gamma") ]
  = [ succeeded_entry (lit "a/one") (plain_reply "alpha");
      Failed (lit "b/two") (error_text (error_with_status 500));
      succeeded_entry (lit "c/three") (plain_reply "gamma") ].
Proof.
  refine (compare_results_schedule_independent demo_config middle_fails
            last_first first_first demo_comparison _ _ _ _); reflexivity.
Defined.

(** X20. Once the comparison has completed, further turns of the event
    loop change nothing. *)
Theorem compare_results_stable (cfg : Config)
    (worlds : nat -> Oracle HttpRequest AxiosResponse) (schedule more : list nat)
    (params : CompareModels.t) (outcome : Settled (list ComparisonResult)) :
  compare_results cfg worlds schedule params = Some outcome ->
  compare_results cfg worlds (schedule ++ more) params = Some outcome.
Proof.
  destruct params as [models message max_tokens].
  rewrite !compare_results_unrejected. intros H.
  destruct (mapM fulfilment _) as [results|] eqn:Hm; [|discriminate].
  replace (tasks (run_schedule worlds (schedule ++ more) _))
    with (tasks (run_schedule worlds schedule
                   (spawn_all worlds
                      (compare_promises cfg
                         {| CompareModels.models := models;
                            CompareModels.message := message;
                            CompareModels.max_tokens := max_tokens |})))).
  { now rewrite Hm. }
  unfold run_schedule at 2. rewrite foldl_app.
  fold (run_schedule worlds schedule
          (spawn_all worlds
             (compare_promises cfg
                {| CompareModels.models := models; CompareModels.message := message;
                   CompareModels.max_tokens := max_tokens |}))).
  set (l := run_schedule worlds schedule _) in *.
  fold (run_schedule worlds more l).
  apply list_eq. intros j. rewrite tasks_run_schedule.
  destruct (tasks l !! j) as [t|] eqn:Ht; [|reflexivity]. simpl. f_equal.
  apply mapM_Some in Hm.
  destruct (Forall2_lookup_l _ _ _ _ _ Hm Ht) as [r [_ Hr]].
  symmetry. apply settled_iter_step. eapply fulfilment_settled, Hr.
Qed.

Lemma compare_results_stable_witness :
  compare_results demo_config middle_fails (last_first ++ first_first) demo_comparison
  = Some (Fulfilled
      [ succeeded_entry (lit "a/one") (plain_reply "alpha");
        Failed (lit "b/two") (lit "Request failed");
        succeeded_entry (lit "c/three") (plain_reply "gamma") ]).
Proof.
  apply (compare_results_stable demo_config middle_fails last_first first_first
           demo_comparison). reflexivity.
Defined.

Section CallsReceived.
Context {Op T R : Type}.
Variable world : Oracle Op T.

(** Running to the next suspension point awaits nothing. *)
Lemma calls_of_sync (p : Prog Op T R) (c d : nat) (tr : list (Event Op)) :
  calls_of (trace (sync world p c d tr)) = calls_of tr.
Proof.
  revert c d tr. induction p as [r|e|op k IH|k IH|line k IH|delay k IH];
    intros c d tr; simpl; try reflexivity.
  - apply IH.
  - rewrite IH, calls_of_app. simpl. apply app_nil_r.
Qed.

(** The request a task is waiting on is the next call of its trace. *)
Lemma calls_received_step (t : Task Op T R) :
  calls_received t = calls_of (trace (step world t))
  \/ calls_received t = calls_of (trace t).
Proof.
  unfold calls_received, in_flight, step. destruct t as [p c d tr]. simpl.
  destruct p; try (right; apply app_nil_r).
  left. rewrite calls_of_sync, calls_of_app. reflexivity.
Qed.

(** At any moment, the requests received from a task are the first
    calls of the task run alone. *)
Lemma calls_received_prefix (n : nat) (t : Task Op T R) :
  calls_received (Nat.iter n (step world) t)
    `prefix_of` calls_of (trace (resume world t)).
Proof.
  destruct (calls_received_step (Nat.iter n (step world) t)) as [-> | ->].
  - apply calls_of_prefix. apply (trace_iter_step_prefix world (S n) t).
  - apply calls_of_prefix. apply (trace_iter_step_prefix world n t).
Qed.
End CallsReceived.

(** X21. At every moment of a comparison, the remote has received from
    each requested model's task at most four requests, the pending one
    included, and all of them are that model's request. *)
Theorem compareModels_calls_per_model (cfg : Config)
    (worlds : nat -> Oracle HttpRequest AxiosResponse) (schedule : list nat)
    (params : CompareModels.t) (j : nat)
    (t : Task HttpRequest AxiosResponse ComparisonResult) :
  tasks (run_schedule worlds schedule (spawn_all worlds (compare_promises cfg params)))
    !! j = Some t ->
  exists model,
    CompareModels.models params !! j = Some model
    /\ (length (calls_received t) <= 4)%nat
    /\ (attempts (trace t) <= length (calls_received t))%nat
    /\ Forall (fun request =>
                 request = compare_request cfg (CompareModels.message params)
                             (CompareModels.max_tokens params) model)
              (calls_received t).
Proof.
  destruct params as [models message max_tokens]. intros Ht.
  rewrite compare_slot in Ht.
  destruct (models !! j) as [model|] eqn:Hj; [|discriminate].
  simpl in Ht. injection Ht as <-. exists model. split; [exact Hj|].
  cbn [CompareModels.message CompareModels.max_tokens].
  pose proof (calls_received_prefix (worlds j) (turns_of j schedule)
                (spawn (worlds j) (compare_one cfg message max_tokens model)))
    as Hprefix.
  destruct (exec_compare_one cfg message max_tokens (worlds j) model)
    as [outcome [_ Hexec]].
  rewrite resume_spawn, Hexec in Hprefix. simpl in Hprefix.
  destruct (compare_call_summary cfg (worlds j) message max_tokens model)
    as [Hfour Hall].
  rewrite attempts_calls_of in Hfour.
  destruct Hprefix as [rest Hrest]. rewrite Hrest in Hfour, Hall.
  rewrite length_app in Hfour. apply Forall_app in Hall as [Hall _].
  split; [lia|]. split; [|exact Hall].
  rewrite attempts_calls_of. unfold calls_received. rewrite length_app. lia.
Qed.

Lemma compareModels_calls_per_model_witness :
  exists model,
    CompareModels.models demo_comparison !! 1%nat = Some model
    /\ (length (calls_received
                  (spawn (middle_fails 1)
                     (compare_one demo_config (lit "hi") 500 (lit "b/two")))) <= 4)%nat
    /\ (attempts (trace (spawn (middle_fails 1)
                           (compare_one demo_config (lit "hi") 500 (lit "b/two"))))
        <= length (calls_received
                     (spawn (middle_fails 1)
                        (compare_one demo_config (lit "hi") 500 (lit "b/two")))))%nat
    /\ Forall (fun request =>
                 request = compare_request demo_config
                             (CompareModels.message demo_comparison)
                             (CompareModels.max_tokens demo_comparison) model)
              (calls_received
                 (spawn (middle_fails 1)
                    (compare_one demo_config (lit "hi") 500 (lit "b/two")))).
Proof.
  apply (compareModels_calls_per_model demo_config middle_fails [] demo_comparison 1).
  reflexivity.
Defined.

(** X22. Every request that a comparison posts, at any moment, is the
    request of one of the requested models: that model, the message as
    a single user turn with no system turn, the given [max_tokens] and
    no [temperature]. *)
Theorem compareModels_requests (cfg : Config)
    (worlds : nat -> Oracle HttpRequest AxiosResponse) (schedule : list nat)
    (params : CompareModels.t) :
  Forall
    (fun request =>
       exists model,
         In model (CompareModels.models params)
         /\ request = compare_request cfg (CompareModels.message params)
                        (CompareModels.max_tokens params) model)
    (calls_of (compare_traces cfg worlds schedule params)).
Proof.
  unfold compare_traces. apply calls_of_concat, Forall_lookup_2. intros j t Ht.
  destruct (compare_slot_trace cfg worlds schedule params j t Ht)
    as [model [Hj Hprefix]].
  apply calls_of_prefix in Hprefix. destruct Hprefix as [rest Hrest].
  pose proof (proj2 (compare_call_summary cfg (worlds j)
                       (CompareModels.message params)
                       (CompareModels.max_tokens params) model)) as Hall.
  simpl in Hall. rewrite Hrest in Hall. apply Forall_app in Hall as [Hall _].
  eapply Forall_impl; [exact Hall|]. intros request ->.
  exists model. split; [|reflexivity].
  apply list_elem_of_In. eapply list_elem_of_lookup_2, Hj.
Qed.

(** X23. For any list of models: once every requested model has had
    eight turns of the event loop, in any order, every per-model promise
    has settled and [Promise.all] has fulfilled, with one result per
    requested model. *)
Theorem compare_results_complete (cfg : Config)
    (worlds : nat -> Oracle HttpRequest AxiosResponse) (schedule : list nat)
    (params : CompareModels.t) :
  (forall j, (j < length (CompareModels.models params))%nat ->
             (8 <= turns_of j schedule)%nat) ->
  exists results,
    compare_results cfg worlds schedule params = Some (Fulfilled results)
    /\ length results = length (CompareModels.models params).
Proof.
  destruct params as [models message max_tokens]. intros Hfair.
  destruct (compare_results_fulfil cfg message max_tokens worlds schedule models Hfair)
    as [results Hres].
  exists results. split; [exact Hres|].
  apply (compare_results_in_request_order cfg message max_tokens worlds schedule
           models results Hres).
Qed.

Lemma compare_results_complete_witness :
  exists results,
    compare_results demo_config middle_fails first_first demo_comparison
    = Some (Fulfilled results)
    /\ length results = length (CompareModels.models demo_comparison).
Proof.
  apply (compare_results_complete demo_config middle_fails first_first demo_comparison).
  intros j Hj. destruct j as [|[|[|j]]]; [vm_compute; lia .. | simpl in Hj; lia].
Defined.

(** X24. The reasoning shown in a comparison block is never longer than
    203 characters, and it always begins with the first 200 characters
    of the reasoning. *)
Theorem reasoning_excerpt_bounded (reasoning : jsstring) :
  (length (reasoning_excerpt reasoning) <= 203)%nat
  /\ take 200 reasoning `prefix_of` reasoning_excerpt reasoning.
Proof.
  destruct (decide (200 < length reasoning)%nat) as [Hlong|Hshort].
  - rewrite reasoning_excerpt_long by exact Hlong. split.
    + rewrite length_app, length_take.
      change (length (lit "...")) with 3%nat. lia.
    + now exists (lit "...").
  - rewrite reasoning_excerpt_short by lia. split; [lia|].
    rewrite take_ge by lia. reflexivity.
Qed.

(** ** The catalogue tools *)

Lemma find_first_match {A} (f : A -> bool) (before after : list A) (x : A) :
  Forall (fun y => f y = false) before -> f x = true ->
  List.find f (before ++ x :: after) = Some x.
Proof.
  induction 1 as [|y before Hy _ IH]; intros Hx; simpl.
  - now rewrite Hx.
  - rewrite Hy. now apply IH.
Qed.

Lemma find_no_match {A} (f : A -> bool) (l : list A) :
  Forall (fun y => f y = false) l -> List.find f l = None.
Proof.
  induction 1 as [|y l Hy _ IH]; simpl; [reflexivity|]. now rewrite Hy.
Qed.

Section CatalogFacts.
Variable stringify_model : ModelObject -> jsstring.
Variable stringify_summaries : list ModelSummary -> jsstring.
Variable cfg : Config.
Variable world : Oracle GetRequest CatalogResponse.

(** X25. [getModelInfo] answers with the first model of the catalogue
    whose [id] is the requested string, whatever follows it in the
    catalogue, after a single call to [GET /models]. *)
Theorem getModelInfo_finds_first_match (model : jsstring)
    (before after : list ModelObject) (found : ModelObject) :
  outcomes world 0%nat (models_request cfg)
  = Fulfilled {| data_data := before ++ found :: after |} ->
  Forall (fun m => id_is model m = false) before ->
  id_is model found = true ->
  exec world (getModelInfo stringify_model cfg model)
  = {| code := Return (text_result (stringify_model found));
       calls := 1; draws := 0; trace := [Called (models_request cfg)] |}.
Proof.
  intros Hout Hbefore Hfound. unfold exec, getModelInfo. simpl.
  rewrite Hout. simpl. now rewrite (find_first_match _ before after found).
Qed.

(** X26. When no model of the catalogue has the requested [id], the
    empty catalogue included, [getModelInfo] rejects with the error
    "Model <id> not found". *)
Theorem getModelInfo_not_found (model : jsstring) (catalog : list ModelObject) :
  outcomes world 0%nat (models_request cfg) = Fulfilled {| data_data := catalog |} ->
  Forall (fun m => id_is model m = false) catalog ->
  settlement (exec world (getModelInfo stringify_model cfg model))
  = Some (Rejected (new_Error (lit "Model " ++ model ++ lit " not found"))).
Proof.
  intros Hout Hnone. unfold exec, getModelInfo. simpl.
  rewrite Hout. simpl. now rewrite (find_no_match _ catalog Hnone).
Qed.

(** X27. The catalogue tools do not retry: when [GET /models] fails,
    with status 429 or 402 as with any other error, [listModels] and
    [getModelInfo] reject with that error after the single call, and
    nothing is logged or slept. *)
Theorem catalog_tools_do_not_retry (model : jsstring) (error : Thrown) :
  outcomes world 0%nat (models_request cfg) = Rejected error ->
  exec world (listModels stringify_summaries cfg)
  = {| code := Throw error; calls := 1; draws := 0;
       trace := [Called (models_request cfg)] |}
  /\ exec world (getModelInfo stringify_model cfg model)
     = {| code := Throw error; calls := 1; draws := 0;
          trace := [Called (models_request cfg)] |}.
Proof.
  intros Hout. unfold exec, listModels, getModelInfo. simpl.
  rewrite Hout. split; reflexivity.
Qed.
End CatalogFacts.

Lemma getModelInfo_finds_first_match_witness :
  exec catalog_remote
    (getModelInfo show_id demo_config (lit "b/two"))
  = {| code := Return (text_result (show_id (catalog_entry "b/two" 8192)));
       calls := 1; draws := 0; trace := [Called (models_request demo_config)] |}.
Proof.
  refine (getModelInfo_finds_first_match show_id demo_config catalog_remote
            (lit "b/two") [catalog_entry "a/one" 4096] [catalog_entry "b/two" 16384]
            (catalog_entry "b/two" 8192) _ _ _).
  - reflexivity.
  - repeat constructor.
  - reflexivity.
Defined.

Lemma getModelInfo_not_found_witness :
  settlement (exec catalog_remote (getModelInfo show_id demo_config (lit "c/three")))
  = Some (Rejected (new_Error (lit "Model " ++ lit "c/three" ++ lit " not found"))).
Proof.
  refine (getModelInfo_not_found show_id demo_config catalog_remote (lit "c/three")
            [ catalog_entry "a/one" 4096; catalog_entry "b/two" 8192;
              catalog_entry "b/two" 16384 ] _ _).
  - reflexivity.
  - repeat constructor.
Defined.

Lemma catalog_tools_do_not_retry_witness :
  exec limited_catalog (listModels (fun _ => []) demo_config)
  = {| code := Throw (error_with_status 429); calls := 1; draws := 0;
       trace := [Called (models_request demo_config)] |}.
Proof.
  refine (proj1 (catalog_tools_do_not_retry show_id (fun _ => []) demo_config
                   limited_catalog (lit "a/one") (error_with_status 429) _)).
  reflexivity.
Defined.
